(** * Maintenance scripts of the Graph Digitizer repository

    A shallow embedding of the four command-line scripts

    - [scripts/fix_md_spacing.py]            (FenceSpacingFixer),
    - [scripts/fix_md_lint.py]               (LintStyleFixer),
    - [.scripts/find_missing_javadoc.py]     (JavadocCoverageScanner),
    - [graph-digitizer-java/scripts/ingest_json_log.py] (LogEventViewer),

    and the properties their specification states about them.

    Modelling conventions.
    - A Python [str] is a list of Unicode code points ([text = list N]).
    - The regular expressions of the scripts are translated pattern by
      pattern; [re.sub] and [str.replace] share one left-to-right,
      non-overlapping substitution engine ([re_sub]).
    - The Unicode tables behind [\d] and [\w] belong to the Python
      runtime; they are parameters ([is_decimal], [is_word]).  The table
      behind [\s] and [str.strip] is written out ([is_space]).
    - The file system is a finite map from paths to nodes; an uncaught
      Python exception is an explicit error result. *)

From Stdlib Require Import NArith ZArith String Ascii DecimalString.
From stdpp Require Import base option list gmap.

Set Warnings "-register-all".

Local Open Scope N_scope.

(** ** Text: Python strings as lists of code points *)

Module Text.

Abbreviation text := (list N).

(** The code points of an ASCII literal. *)
Definition txt (s : string) : text := N_of_ascii <$> list_ascii_of_string s.

Definition NL : N := 10.   (* '\n' *)
Definition SP : N := 32.   (* ' '  *)
Definition BT : N := 96.   (* '`'  *)
Definition LT : N := 60.   (* '<'  *)
Definition GT : N := 62.   (* '>'  *)

(** [\s] of a [str] pattern and the characters removed by [str.strip()]:
    the code points for which [str.isspace] holds. *)
Definition is_space (c : N) : bool :=
  ((9 <=? c) && (c <=? 13)) || ((28 <=? c) && (c <=? 32))
  || (c =? 133) || (c =? 160) || (c =? 5760)
  || ((8192 <=? c) && (c <=? 8202))
  || (c =? 8232) || (c =? 8233) || (c =? 8239) || (c =? 8287) || (c =? 12288).

(** [s.startswith(p)] *)
Fixpoint starts_with (p s : text) : bool :=
  match p, s with
  | [], _ => true
  | _ :: _, [] => false
  | a :: p', b :: s' => (a =? b) && starts_with p' s'
  end.

(** [p in s] *)
Fixpoint contains (p s : text) : bool :=
  starts_with p s ||
  match s with
  | [] => false
  | _ :: s' => contains p s'
  end.

(** [s.lstrip()], [s.rstrip()], [s.strip()] *)
Fixpoint lstrip (s : text) : text :=
  match s with
  | [] => []
  | c :: s' => if is_space c then lstrip s' else s
  end.

Definition rstrip (s : text) : text := rev (lstrip (rev s)).

Definition strip (s : text) : text := rstrip (lstrip s).

(** [s.rstrip('\n')] *)
Fixpoint lstrip_nl (s : text) : text :=
  match s with
  | [] => []
  | c :: s' => if c =? NL then lstrip_nl s' else s
  end.

Definition rstrip_nl (s : text) : text := rev (lstrip_nl (rev s)).

(** [s.split('\n')]: always at least one piece. *)
Fixpoint split_nl (s : text) : list text :=
  match s with
  | [] => [[]]
  | c :: s' =>
      if c =? NL then [] :: split_nl s'
      else match split_nl s' with
           | l :: ls => (c :: l) :: ls
           | [] => [[c]]
           end
  end.

(** [l[-n:]] for a positive [n] *)
Definition last_n {A} (n : nat) (l : list A) : list A :=
  drop (length l - n) l.

(** [re.sub] / [str.replace] for a pattern that never matches the empty
    string.  [m s] tells whether the pattern matches at the head of [s]
    and, if so, gives the replacement text and the length of the match.
    Matches are found left to right and do not overlap: after a match of
    length [n] the scan resumes [n] characters further ([skip] counts the
    characters of the current match that are still to be passed over). *)
Fixpoint re_sub_from (m : text -> option (text * nat)) (skip : nat) (s : text)
  : text :=
  match s with
  | [] => []
  | c :: s' =>
      match skip with
      | S k => re_sub_from m k s'
      | O =>
          match m s with
          | Some (r, n) => r ++ re_sub_from m (pred n) s'
          | None => c :: re_sub_from m 0 s'
          end
      end
  end.

Definition re_sub (m : text -> option (text * nat)) (s : text) : text :=
  re_sub_from m 0 s.

(** Whether the pattern [m] matches somewhere in [s]. *)
Fixpoint any_match (m : text -> option (text * nat)) (s : text) : bool :=
  match m s with
  | Some _ => true
  | None =>
      match s with
      | [] => false
      | _ :: s' => any_match m s'
      end
  end.

End Text.

Import Text.

(** ** FenceSpacingFixer: [scripts/fix_md_spacing.py] *)

Module FenceSpacing.

Section Patterns.

(** [\d]: the decimal digits of the runtime's Unicode table. *)
Variable is_decimal : N -> bool.

(** [fence_start_re = ([^\n])\n(```)] with replacement [\1\n\n\2] *)
Definition fence_start_re (s : text) : option (text * nat) :=
  match s with
  | c :: n :: b1 :: b2 :: b3 :: _ =>
      if negb (c =? NL) && (n =? NL) && (b1 =? BT) && (b2 =? BT) && (b3 =? BT)
      then Some ([c; NL; NL; BT; BT; BT], 5%nat)
      else None
  | _ => None
  end.

(** [fence_end_re = ```\n([^\n`])] with replacement [```\n\n\1] *)
Definition fence_end_re (s : text) : option (text * nat) :=
  match s with
  | b1 :: b2 :: b3 :: n :: c :: _ =>
      if (b1 =? BT) && (b2 =? BT) && (b3 =? BT) && (n =? NL)
         && negb (c =? NL) && negb (c =? BT)
      then Some ([BT; BT; BT; NL; NL; c], 5%nat)
      else None
  | _ => None
  end.

(** [\s{0,k}] followed by the pattern [p]. *)
Fixpoint ws_upto (k : nat) (p : text -> bool) (s : text) : bool :=
  p s ||
  match k, s with
  | S k', c :: s' => is_space c && ws_upto k' p s'
  | _, _ => false
  end.

(** [[-\*]\s] *)
Definition bullet (s : text) : bool :=
  match s with
  | c :: d :: _ => ((c =? 45) || (c =? 42)) && is_space d
  | _ => false
  end.

(** [\.\s] *)
Definition dot_space (s : text) : bool :=
  match s with
  | c :: d :: _ => (c =? 46) && is_space d
  | _ => false
  end.

(** [\d+\.\s] *)
Fixpoint numbered (s : text) : bool :=
  match s with
  | d :: s' => is_decimal d && (dot_space s' || numbered s')
  | [] => false
  end.

(** The lookahead [(?=(?:\s{0,3}[-\*]\s)|(?:\s{0,3}\d+\.\s))] *)
Definition list_ahead (s : text) : bool :=
  ws_upto 3 bullet s || ws_upto 3 numbered s.

(** [list_re = ([^\n])\n(?=...)] with replacement [\1\n\n] *)
Definition list_re (s : text) : option (text * nat) :=
  match s with
  | c :: n :: rest =>
      if negb (c =? NL) && (n =? NL) && list_ahead rest
      then Some ([c; NL; NL], 2%nat)
      else None
  | _ => None
  end.

(** The three substitutions of the loop body, chained as the script
    chains them (lines 26, 28, 30). *)
Definition transform (text0 : text) : text :=
  let t1 := re_sub fence_start_re text0 in
  let t2 := re_sub fence_end_re t1 in
  re_sub list_re t2.

End Patterns.

End FenceSpacing.


(** ** LintStyleFixer: [scripts/fix_md_lint.py] *)

Module LintStyle.

Definition TAG : text := Eval cbv in txt "```text".
Definition FENCE : text := Eval cbv in txt "```".
Definition HTTP : text := Eval cbv in txt "http://".
Definition HTTPS : text := Eval cbv in txt "https://".

(** [text.replace('```text', '```')] *)
Definition tag_at (s : text) : option (text * nat) :=
  if starts_with TAG s then Some (FENCE, length TAG) else None.

Definition replace_tag (s : text) : text := re_sub tag_at s.

(** [[^>\s]] *)
Definition url_char (c : N) : bool := negb (c =? GT) && negb (is_space c).

(** the longest run of [[^>\s]] at the head of [s] *)
Fixpoint url_run (s : text) : text :=
  match s with
  | c :: s' => if url_char c then c :: url_run s' else []
  | [] => []
  end.

(** [https?://] at the head of [s]: the scheme that matched *)
Definition scheme_at (s : text) : option text :=
  if starts_with HTTPS s then Some HTTPS
  else if starts_with HTTP s then Some HTTP
  else None.

(** [url_re = <(https?://[^>\s]+)>] with replacement [[\1](\1)].  The
    class excludes [>], so the only way to reach the closing [>] is to
    take the whole run. *)
Definition url_re (s : text) : option (text * nat) :=
  match s with
  | c :: rest =>
      if c =? LT then
        match scheme_at rest with
        | Some sch =>
            let body := url_run (drop (length sch) rest) in
            match body, drop (length sch + length body) rest with
            | _ :: _, g :: _ =>
                if g =? GT then
                  let url := sch ++ body in
                  Some (txt "[" ++ url ++ txt "](" ++ url ++ txt ")",
                        S (S (length url)))
                else None
            | _, _ => None
            end
        | None => None
        end
      else None
  | [] => None
  end.

(** Lines 21 and 22 of the loop body. *)
Definition transform (text0 : text) : text :=
  re_sub url_re (replace_tag text0).

End LintStyle.


(** ** The file-rewriting loops of the two Markdown fixers *)

Module Fixers.

(** What a path of the tree holds: a file whose bytes decode to a text,
    or something [read_text] raises on (a directory, undecodable bytes,
    no permission). *)
Inductive node :=
  | File (content : text)
  | Unreadable.

(** What the scripts print, line by line. *)
Inductive line :=
  | Found (n : nat)            (* Found <n> markdown files *)
  | PatchedLine (p : text)     (* Patched spacing: <p>  /  Patched: <p> *)
  | Done (n : nat).            (* Done. Files patched: <n> *)

(** The state a run threads through its loop: the file system, every
    [write_text] call made so far (most recent first), the [patched]
    list and the printed lines (both most recent first). *)
Record state := State {
  files : gmap text node;
  writes : list (text * text);
  patched : list text;
  out : list line
}.

Inductive exn := ReadError.

Definition BAK : text := Eval cbv in txt ".bak".
Definition MD : text := Eval cbv in txt ".md".

(** [p.read_text(encoding='utf-8')] *)
Definition read_text (st : state) (p : text) : exn + text :=
  match files st !! p with
  | Some (File t) => inr t
  | _ => inl ReadError
  end.

(** Whether [read_text] succeeds on [p] in the tree [fs]. *)
Definition readable (fs : gmap text node) (p : text) : bool :=
  match fs !! p with
  | Some (File _) => true
  | _ => false
  end.

(** [p.exists()] *)
Definition path_exists (st : state) (p : text) : bool :=
  bool_decide (is_Some (files st !! p)).

(** [p.write_text(t, encoding='utf-8')] *)
Definition write_text (st : state) (p t : text) : state :=
  State (<[p := File t]> (files st)) ((p, t) :: writes st)
        (patched st) (out st).

(** [print('Patched...', p)] followed by [patched.append(str(p))] *)
Definition report (st : state) (p : text) : state :=
  State (files st) (writes st) (p :: patched st) (PatchedLine p :: out st).

Definition say (st : state) (l : line) : state :=
  State (files st) (writes st) (patched st) (l :: out st).

(** [Path(str(p) + '.bak')] *)
Definition bak_path (p : text) : text := p ++ BAK.

(** [p.with_suffix(p.suffix + '.bak')].  The paths of the loop come from
    [rglob('*.md')], so the name ends in [.md]; pathlib then appends
    [.bak] to the name (also for the name [.md], whose suffix is empty). *)
Definition with_suffix_bak (p : text) : text := p ++ BAK.

Section Loops.

Variable is_decimal : N -> bool.

(** One iteration of the loop of [fix_md_spacing.py] (lines 22 to 38);
    the read is not guarded, so a [ReadError] leaves the loop. *)
Definition spacing_step (st : state) (p : text) : exn + state :=
  match read_text st p with
  | inl e => inl e
  | inr orig =>
      let text1 := FenceSpacing.transform is_decimal orig in
      if bool_decide (text1 <> orig) then
        let bak := bak_path p in
        let st1 := if negb (path_exists st bak)
                   then write_text st bak orig else st in
        let st2 := write_text st1 p text1 in
        inr (report st2 p)
      else inr st
  end.

(** One iteration of the loop of [fix_md_lint.py] (lines 15 to 31);
    [except Exception: continue] keeps the state. *)
Definition lint_step (st : state) (p : text) : exn + state :=
  match read_text st p with
  | inl _ => inr st
  | inr orig =>
      let text1 := LintStyle.transform orig in
      if bool_decide (text1 <> orig) then
        let bak := with_suffix_bak p in
        (* line 25: writes [p], not [bak] *)
        let st1 := if negb (path_exists st bak)
                   then write_text st p orig else st in
        (* line 28: unconditional *)
        let st2 := write_text st1 (bak_path p) orig in
        let st3 := write_text st2 p text1 in
        inr (report st3 p)
      else inr st
  end.

(** [for p in md_files: ...] *)
Fixpoint for_each (step : state -> text -> exn + state)
    (md_files : list text) (st : state) : exn + state :=
  match md_files with
  | [] => inr st
  | p :: ps =>
      match step st p with
      | inl e => inl e
      | inr st' => for_each step ps st'
      end
  end.

(** A whole run: the tree [fs] and the list [md_files] that
    [root.rglob('*.md')] yields on it. *)
Definition run (step : state -> text -> exn + state)
    (fs : gmap text node) (md_files : list text) : exn + state :=
  let st0 := say (State fs [] [] []) (Found (length md_files)) in
  match for_each step md_files st0 with
  | inl e => inl e
  | inr st => inr (say st (Done (length (patched st))))
  end.

Definition spacing_run := run spacing_step.
Definition lint_run := run lint_step.



End Loops.

End Fixers.

(** ** JavadocCoverageScanner: [.scripts/find_missing_javadoc.py] *)

Module Javadoc.

Definition PUBLIC : text := Eval cbv in txt "public".
Definition KEYWORDS : list text :=
  Eval cbv in [txt "class"; txt "record"; txt "enum"; txt "interface"].
Definition MARKER : text := Eval cbv in txt "/**".
Definition STAR : text := Eval cbv in txt "*".
Definition SLASH_STAR : text := Eval cbv in txt "/*".
Definition SLASH_SLASH : text := Eval cbv in txt "//".

(** Pattern combinators: each takes the pattern [k] that follows. *)

(** [\s*] *)
Fixpoint ws_star (k : text -> bool) (s : text) : bool :=
  k s ||
  match s with
  | c :: s' => is_space c && ws_star k s'
  | [] => false
  end.

(** [\s+] *)
Definition ws_plus (k : text -> bool) (s : text) : bool :=
  match s with
  | c :: s' => is_space c && ws_star k s'
  | [] => false
  end.

(** a literal *)
Definition lit (p : text) (k : text -> bool) (s : text) : bool :=
  starts_with p s && k (drop (length p) s).

Section Scanner.

(** [\w]: the word characters of the runtime's Unicode table. *)
Variable is_word : N -> bool.

(** [\w+] at the end of the pattern: one word character is enough. *)
Definition word1 (s : text) : bool :=
  match s with
  | c :: _ => is_word c
  | [] => false
  end.

(** The pattern of line 6 after its [^], at the head of [s]: a group
    holding [\s*], then [public\s+(class|record|enum|interface)\s+\w+]. *)
Definition decl_at (s : text) : bool :=
  ws_star
    (lit PUBLIC
       (ws_plus (fun s1 => existsb (fun kw => lit kw (ws_plus word1) s1)
                                   KEYWORDS)))
    s.

(** [re.search(r'^...', s, flags=re.M)]: the offset of the first match;
    [bol] tells whether the head of [s] is at the beginning of a line. *)
Fixpoint search_from (bol : bool) (s : text) : option nat :=
  if bol && decl_at s then Some 0%nat
  else match s with
       | [] => None
       | c :: s' => S <$> search_from (c =? NL) s'
       end.

Definition search (s : text) : option nat := search_from true s.

(** The condition of line 17 *)
Definition passable (line : text) : bool :=
  bool_decide (strip line = []) || starts_with STAR (strip line)
  || starts_with SLASH_STAR (strip line).

(** The loop of lines 13 to 20 over [reversed(prev_lines)]; the result
    is [has_javadoc]. *)
Fixpoint scan (lines : list text) : bool :=
  match lines with
  | [] => false
  | line :: rest =>
      if contains MARKER line then true
      else if passable line then scan rest
      else if negb (starts_with SLASH_SLASH (strip line)) then false
      else scan rest
  end.

(** Lines 9 and 11 *)
Definition prev_lines (s : text) (start : nat) : list text :=
  last_n 10 (split_nl (rstrip_nl (take start s))).

(** Lines 6 to 22 for one file content: [Some true] when the path is
    appended to [missing], [Some false] when it is not, [None] when the
    file has no match. *)
Definition check (s : text) : option bool :=
  match search s with
  | Some start => Some (negb (scan (rev (prev_lines s start))))
  | None => None
  end.

(** A line the loop goes past when it holds no marker: blank, starting
    with [*] or [/*], or a [//] comment. *)
Definition skippable (line : text) : bool :=
  passable line || starts_with SLASH_SLASH (strip line).

(** Going through [lines] (nearest line first), a line holding the
    marker is reached before any line that cannot be skipped. *)
Definition marker_reached (lines : list text) : Prop :=
  exists k line,
    lines !! k = Some line
    /\ contains MARKER line = true
    /\ forall j l, (j < k)%nat -> lines !! j = Some l -> skippable l = true.

(** The window in the words of the specification: the (at most) ten
    lines immediately above the line that holds the declaration.  The
    keyword [public] stands after the whitespace the match begins with;
    the lines above it are the pieces of the text before it, without the
    last one (the indentation of the declaration line). *)
Definition claimed_prev_lines (s : text) (start : nat) : list text :=
  let rest := drop start s in
  let public_at := (start + (length rest - length (lstrip rest)))%nat in
  last_n 10 (removelast (split_nl (take public_at s))).

Definition claimed_check (s : text) : option bool :=
  match search s with
  | Some start => Some (negb (scan (rev (claimed_prev_lines s start))))
  | None => None
  end.

(** The loop over the sorted source files, given with their contents. *)
Fixpoint missing (sources : list (text * text)) : list text :=
  match sources with
  | [] => []
  | (p, s) :: rest =>
      if bool_decide (check s = Some true) then p :: missing rest
      else missing rest
  end.

End Scanner.

End Javadoc.


(** ** LogEventViewer: [graph-digitizer-java/scripts/ingest_json_log.py] *)

Module LogViewer.

(** The values [json.loads] returns.  A float carries the text [str]
    gives for it; a dict is the list of its items, keys distinct. *)
Inductive pyval :=
  | PNone
  | PBool (b : bool)
  | PInt (z : Z)
  | PFloat (shown : text)
  | PStr (s : text)
  | PList (l : list pyval)
  | PDict (items : list (text * pyval)).

Inductive exn :=
  | AttributeError
  | TypeError
  | OSError.

(** Sequencing of steps that may raise. *)
Definition bind {A B} (m : exn + A) (k : A -> exn + B) : exn + B :=
  match m with
  | inl e => inl e
  | inr a => k a
  end.

Notation "x <- m ;; k" := (bind m (fun x => k))
  (at level 100, m at level 99, k at level 200, right associativity).

(** The target of [--path] on disk. *)
Inductive log_file :=
  | Missing
  | Unopenable
  | Lines (content : text).

(** [parse_args()]: [None] for an option that was not given. *)
Record args := Args {
  level : option text;
  logger : option text
}.

(** What [main] prints, line by line. *)
Inductive line :=
  | NotFound                   (* Log file not found: <path> *)
  | EventLine (l : text)       (* one formatted event *)
  | Summary (count : nat).     (* an empty line, then Displayed <count> events *)

(** The outcome of [main]: the printed lines, oldest first, and either
    the returned exit code or the exception that left [main]. *)
Record outcome := Outcome {
  printed : list line;
  ret : exn + Z
}.

(** Truth value of an optional argument: [None] and [''] are false. *)
Definition given (o : option text) : option text :=
  match o with
  | Some (c :: f) => Some (c :: f)
  | _ => None
  end.

Fixpoint lookup_item (key : text) (items : list (text * pyval)) : option pyval :=
  match items with
  | [] => None
  | (k, v) :: rest => if bool_decide (k = key) then Some v else lookup_item key rest
  end.

(** [event.get(key, default)]; only a dict has [get]. *)
Definition get (event : pyval) (key : text) (dflt : pyval) : exn + pyval :=
  match event with
  | PDict items => inr (default dflt (lookup_item key items))
  | _ => inl AttributeError
  end.

(** [v != s] for a [str] [s] *)
Definition is_dict (v : pyval) : bool :=
  match v with
  | PDict _ => true
  | _ => false
  end.

Definition differs (v : pyval) (s : text) : bool :=
  match v with
  | PStr t => bool_decide (t <> s)
  | _ => true
  end.

(** [v.startswith(prefix)]; only a [str] has it among the JSON values. *)
Definition py_startswith (v : pyval) (prefix : text) : exn + bool :=
  match v with
  | PStr t => inr (starts_with prefix t)
  | _ => inl AttributeError
  end.

Definition str_int (z : Z) : text := txt (NilZero.string_of_int (Z.to_int z)).

(** [s.rjust(5)] *)
Definition rjust5 (s : text) : text := replicate (5 - length s) SP ++ s.

Definition KEY_TIME : text := Eval cbv in txt "time".
Definition KEY_LEVEL : text := Eval cbv in txt "level".
Definition KEY_LOGGER : text := Eval cbv in txt "logger".
Definition KEY_MESSAGE : text := Eval cbv in txt "message".

(** The field [key] of an event, when the event is an object that has
    it. *)
Definition field (event : pyval) (key : text) : option pyval :=
  match event with
  | PDict items => lookup_item key items
  | _ => None
  end.

(** The logger name the prefix filter looks at: the [logger] field, or
    the empty string when the field is absent. *)
Definition logger_text (event : pyval) : text :=
  match field event KEY_LOGGER with
  | Some (PStr s) => s
  | _ => []
  end.

(** The values [format(v, '>5')] accepts. *)
Definition formattable (v : pyval) : bool :=
  match v with
  | PStr _ | PInt _ | PBool _ | PFloat _ => true
  | PNone | PList _ | PDict _ => false
  end.

(** Events the loop body handles whatever the filters are: objects with
    a [level] that can be formatted and a [logger] that is a string or
    absent. *)
Definition well_formed (event : pyval) : bool :=
  is_dict event
  && match field event KEY_LEVEL with
     | Some v => formattable v
     | None => false
     end
  && match field event KEY_LOGGER with
     | Some (PStr _) | None => true
     | Some _ => false
     end.

(** The filter condition in the words of the specification: no level
    filter or the level field equals it, and no logger filter or the
    logger field starts with it. *)
Definition claimed_shown (a : args) (event : pyval) : Prop :=
  (level a = None
   \/ exists lv, level a = Some lv /\ field event KEY_LEVEL = Some (PStr lv))
  /\ (logger a = None
      \/ exists lg, logger a = Some lg
                    /\ starts_with lg (logger_text event) = true).

(** The same with the filters as the code reads them: an empty filter
    counts as none. *)
Definition filter_admits (a : args) (event : pyval) : Prop :=
  (given (level a) = None
   \/ exists lv, given (level a) = Some lv
                 /\ field event KEY_LEVEL = Some (PStr lv))
  /\ (given (logger a) = None
      \/ exists lg, given (logger a) = Some lg
                    /\ starts_with lg (logger_text event) = true).

(** The filter as a test, for events that are objects. *)
Definition admits (a : args) (event : pyval) : bool :=
  match given (level a) with
  | Some lv => negb (differs (default PNone (field event KEY_LEVEL)) lv)
  | None => true
  end
  && match given (logger a) with
     | Some lg => starts_with lg (logger_text event)
     | None => true
     end.

Section Viewer.

(** [json.loads]: [None] stands for [json.JSONDecodeError]. *)
Variable json_loads : text -> option pyval.

(** [repr] of a list or a dict, as the runtime prints it. *)
Variable py_repr : pyval -> text.

(** [format(v, '')], which is [str(v)] *)
Definition py_str (v : pyval) : text :=
  match v with
  | PNone => txt "None"
  | PBool true => txt "True"
  | PBool false => txt "False"
  | PInt z => str_int z
  | PFloat shown => shown
  | PStr s => s
  | PList _ | PDict _ => py_repr v
  end.

(** [format(v, '>5')]: numbers and strings are right-aligned in five
    columns (a bool is formatted as the integer it is); [None], lists
    and dicts reject a non-empty format specification. *)
Definition format_r5 (v : pyval) : exn + text :=
  match v with
  | PStr s => inr (rjust5 s)
  | PInt z => inr (rjust5 (str_int z))
  | PBool b => inr (rjust5 (str_int (if b then 1 else 0)%Z))
  | PFloat shown => inr (rjust5 shown)
  | PNone | PList _ | PDict _ => inl TypeError
  end.

(** [iter_events], on the text of the file: lines are stripped, blank
    ones and those [json.loads] rejects are passed over. *)
Definition parse_line (l : text) : option pyval :=
  let l' := strip l in
  if bool_decide (l' = []) then None else json_loads l'.

Definition iter_events (content : text) : list pyval :=
  omap parse_line (split_nl content).

(** The filter of lines 39 to 42: [inr true] when the event goes on to
    be printed, [inr false] for [continue]. *)
Definition passes (a : args) (event : pyval) : exn + bool :=
  wrong_level <-
    match given (level a) with
    | Some lv => v <- get event KEY_LEVEL PNone ;; inr (differs v lv)
    | None => inr false
    end ;;
  if wrong_level : bool then inr false
  else
    match given (logger a) with
    | Some lg => v <- get event KEY_LOGGER (PStr []) ;; py_startswith v lg
    | None => inr true
    end.

(** The f-string of line 43 *)
Definition render (event : pyval) : exn + text :=
  t <- get event KEY_TIME PNone ;;
  lv <- get event KEY_LEVEL PNone ;;
  lv5 <- format_r5 lv ;;
  lg <- get event KEY_LOGGER PNone ;;
  msg <- get event KEY_MESSAGE PNone ;;
  inr (py_str t ++ txt " " ++ lv5 ++ txt " " ++ py_str lg
       ++ txt " - " ++ py_str msg).

(** The loop of lines 38 to 44: [shown] holds the lines printed so far,
    most recent first, and [count] their number. *)
Fixpoint loop (a : args) (events : list pyval) (shown : list line) (count : nat)
  : list line * (exn + nat) :=
  match events with
  | [] => (shown, inr count)
  | event :: rest =>
      match passes a event with
      | inl e => (shown, inl e)
      | inr false => loop a rest shown count
      | inr true =>
          match render event with
          | inl e => (shown, inl e)
          | inr l => loop a rest (EventLine l :: shown) (S count)
          end
      end
  end.

(** The event is displayed: the loop body prints its line and counts
    it. *)
Definition shown_by (a : args) (event : pyval) : Prop :=
  exists l, loop a [event] [] 0 = ([EventLine l], inr 1%nat).

(** [main] *)
Definition main (a : args) (f : log_file) : outcome :=
  match f with
  | Missing => Outcome [NotFound] (inr 1%Z)
  | Unopenable => Outcome [] (inl OSError)
  | Lines content =>
      match loop a (iter_events content) [] 0 with
      | (shown, inl e) => Outcome (rev shown) (inl e)
      | (shown, inr count) => Outcome (rev (Summary count :: shown)) (inr 0%Z)
      end
  end.

End Viewer.

End LogViewer.


(** ** Concrete tables and inputs used in the examples *)

Module Sample.

Import Fixers LogViewer.

(** The ASCII part of the runtime's tables for [\d] and [\w]. *)
Definition ascii_decimal (c : N) : bool := (48 <=? c) && (c <=? 57).

Definition ascii_word (c : N) : bool :=
  ascii_decimal c || ((65 <=? c) && (c <=? 90)) || ((97 <=? c) && (c <=? 122))
  || (c =? 95).

(** A Markdown text with a list item right under a paragraph line:
    [a], newline, [- b]. *)
Definition para_then_item : text := Eval cbv in txt "a" ++ NL :: txt "- b".


(** The same with the language tag [text] on the fence. *)
Definition para_then_text_fence : text :=
  Eval cbv in txt "a" ++ NL :: txt "```text".


(** The URL of the specification's example, in angle brackets. *)
Definition bracketed_url : text := Eval cbv in txt "<https://x.com>".

(** The link the fixer makes of it. *)
Definition linked_url : text := Eval cbv in txt "[https://x.com](https://x.com)".

(** A tree with an unreadable [a.md] and a readable [b.md]. *)
(** A documentation comment, ten empty lines, then the declaration. *)
Definition doc_far_above : text :=
  Eval cbv in txt "/** d */" ++ replicate 11 NL ++ txt "public class A".

Definition a_md : text := Eval cbv in txt "a.md".
Definition b_md : text := Eval cbv in txt "b.md".

Definition tree_with_unreadable : gmap text node :=
  <[txt "a.md" := Unreadable]> (<[txt "b.md" := File para_then_text_fence]> ∅).

(** A tree whose only Markdown file holds [para_then_item]. *)
Definition tree_with_list : gmap text node :=
  <[txt "a.md" := File para_then_item]> ∅.


(** [a.md] carries the language tag (so both fixers patch it) and has
    no backup yet. *)
Definition state_without_backup : state :=
  State (<[txt "a.md" := File para_then_text_fence]> ∅) [] [] [].

(** [json.loads] on a few lines: [{}] is the empty object,
    [{"level":"INFO"}] an event with a level only, [42] a number;
    anything else is taken to be malformed. *)
Definition loads_sample (l : text) : option pyval :=
  if bool_decide (l = txt "{}") then Some (PDict [])
  else if bool_decide
            (l = [123; 34] ++ txt "level" ++ [34; 58; 34] ++ txt "INFO" ++ [34; 125])
       then Some (PDict [(KEY_LEVEL, PStr (txt "INFO"))])
  else if bool_decide (l = txt "42") then Some (PInt 42)
  else None.

Definition no_repr (v : pyval) : text := [].

(** The line [{"level":"INFO"}] (34 is the double quote). *)
Definition info_line : text :=
  Eval cbv in [123; 34] ++ txt "level" ++ [34; 58; 34] ++ txt "INFO" ++ [34; 125].

(** A log with that line, then a malformed one. *)
Definition info_then_noise : text := Eval cbv in info_line ++ NL :: txt "oops".

(** An event with the level [INFO] and nothing else. *)
Definition info_event : pyval := PDict [(KEY_LEVEL, PStr (txt "INFO"))].

(** [--level ''] and no [--logger]. *)
Definition empty_level_filter : args := Args (Some []) None.

(** A tree whose only Markdown file needs no change from either fixer. *)
Definition plain_md : text := Eval cbv in txt "hello".

Definition settled_state : state :=
  State (<[txt "a.md" := File plain_md]> ∅) [] [] [Found 1].

End Sample.

(** Closes a goal [c ∉ l] for a character and a text that are both
    written out. *)
Ltac absent :=
  let H := fresh in
  intros H;
  repeat (apply elem_of_cons in H as [H | H]; [discriminate|]);
  apply elem_of_nil in H; exact H.

(** * Properties *)

Import Sample.


Section FenceSpacingFacts.

Import FenceSpacing Fixers.

Variable is_decimal : N -> bool.

(** C1, which the code breaks.  The fixer is not idempotent: on the
    text [a], newline, [- b] the first pass puts one blank line before
    the list item and a second pass puts another one, because the
    [\s{0,3}] of the lookahead of [list_re] also runs over the newline
    the first pass inserted.  A second run over the tree therefore
    patches the file again. *)
Theorem spacing_second_pass_patches_again :
  let once := transform is_decimal para_then_item in
  let twice := transform is_decimal once in
  once = txt "a" ++ [NL; NL] ++ txt "- b"
  /\ twice = txt "a" ++ [NL; NL; NL] ++ txt "- b"
  /\ twice <> once
  /\ exists st1 st2,
       spacing_run is_decimal tree_with_list [a_md] = inr st1
       /\ spacing_run is_decimal (files st1) [a_md] = inr st2
       /\ patched st2 = [a_md].
Proof.
  cbv zeta. split; [reflexivity|]. split; [reflexivity|].
  split; [discriminate|].
  eexists _, _. split; [vm_compute; reflexivity|].
  split; [vm_compute; reflexivity|]. reflexivity.
Qed.

(** C7, which the code breaks for FenceSpacingFixer.  Its loop reads
    each file without a guard, so an unreadable Markdown file ends the
    run with the read error and the files after it are never visited;
    LintStyleFixer passes over the same file and goes on to patch the
    next one. *)
Theorem spacing_run_stops_at_unreadable_file :
  spacing_run is_decimal tree_with_unreadable [a_md; b_md] = inl ReadError
  /\ exists st, lint_run tree_with_unreadable [a_md; b_md] = inr st
                /\ patched st = [b_md].
Proof.
  split; [vm_compute; reflexivity|].
  eexists. split; [vm_compute; reflexivity|]. reflexivity.
Qed.

End FenceSpacingFacts.

Section FixerFrame.

Import Fixers.

Variable is_decimal : N -> bool.

(** C9.  A Markdown file that its fixer's transformation leaves as it
    is goes through the loop body without any effect: the state after
    the iteration is the state before it, so the file system is
    untouched, no [write_text] call was made (no rewrite, no backup),
    nothing was printed and [patched] did not grow. *)
Theorem unchanged_file_is_left_alone (st : state) (p orig : text) :
  read_text st p = inr orig ->
  (FenceSpacing.transform is_decimal orig = orig ->
     spacing_step is_decimal st p = inr st)
  /\ (LintStyle.transform orig = orig -> lint_step st p = inr st).
Proof.
  intros Hread. split; intros Hsame.
  - unfold spacing_step. rewrite Hread. cbv zeta. rewrite Hsame.
    rewrite bool_decide_eq_false_2; [reflexivity | intros Hne; apply Hne; reflexivity].
  - unfold lint_step. rewrite Hread. cbv zeta. rewrite Hsame.
    rewrite bool_decide_eq_false_2; [reflexivity | intros Hne; apply Hne; reflexivity].
Qed.

End FixerFrame.

Lemma unchanged_file_is_left_alone_witness :
  Fixers.spacing_step ascii_decimal settled_state a_md = inr settled_state
  /\ Fixers.lint_step settled_state a_md = inr settled_state.
Proof.
  destruct (unchanged_file_is_left_alone ascii_decimal settled_state a_md plain_md)
    as [Hs Hl]; [reflexivity|].
  split; [apply Hs | apply Hl]; reflexivity.
Defined.

Section LogViewerFacts.

Import LogViewer.

Variable json_loads : text -> option pyval.
Variable py_repr : pyval -> text.

Lemma get_non_dict (v : pyval) (key : text) (dflt : pyval) :
  is_dict v = false -> get v key dflt = inl AttributeError.
Proof. destruct v; simpl; intros H; (reflexivity || discriminate). Qed.

(** Whatever the filters are, the first field access on a value that is
    not a dict raises [AttributeError] and leaves the loop. *)
Lemma loop_non_dict (a : args) (v : pyval) (rest : list pyval)
    (shown : list line) (count : nat) :
  is_dict v = false ->
  loop py_repr a (v :: rest) shown count = (shown, inl AttributeError).
Proof.
  intros Hv. simpl. unfold passes, render.
  destruct (given (level a)) as [lv|]; simpl.
  - rewrite (get_non_dict v KEY_LEVEL PNone Hv). reflexivity.
  - destruct (given (logger a)) as [lg|]; simpl.
    + rewrite (get_non_dict v KEY_LOGGER (PStr []) Hv). reflexivity.
    + rewrite (get_non_dict v KEY_TIME PNone Hv). reflexivity.
Qed.

Lemma loop_raises (a : args) (v : pyval) (events : list pyval) :
  v ∈ events -> is_dict v = false ->
  forall shown count, exists shown' e,
    loop py_repr a events shown count = (shown', inl e).
Proof.
  intros Hin Hv. induction Hin as [v rest | v w rest Hin IH]; intros shown count.
  - exists shown, AttributeError. apply loop_non_dict, Hv.
  - simpl. destruct (passes a w) as [e | [|]].
    + exists shown, e. reflexivity.
    + destruct (render py_repr w) as [e | l]; [|apply (IH Hv)].
      exists shown, e. reflexivity.
    + apply (IH Hv).
Qed.

(** C10.  A non-blank line that [json.loads] accepts but whose value is
    not an object is not passed over: the value is among the events
    [iter_events] yields, processing it raises [AttributeError] at its
    first field access, and the run ends with an exception instead of an
    exit code. *)
Theorem non_object_line_aborts_run (a : args) (content l : text) (v : pyval) :
  l ∈ split_nl content ->
  strip l <> [] ->
  json_loads (strip l) = Some v ->
  is_dict v = false ->
  v ∈ iter_events json_loads content
  /\ (forall rest shown count,
        loop py_repr a (v :: rest) shown count = (shown, inl AttributeError))
  /\ exists e, ret (main json_loads py_repr a (Lines content)) = inl e.
Proof.
  intros Hl Hblank Hparse Hv.
  assert (Hin : v ∈ iter_events json_loads content).
  { unfold iter_events. apply list_elem_of_omap. exists l. split; [exact Hl|].
    unfold parse_line. rewrite bool_decide_eq_false_2 by exact Hblank.
    exact Hparse. }
  split; [exact Hin|]. split.
  - intros rest shown count. apply loop_non_dict, Hv.
  - unfold main.
    destruct (loop_raises a v _ Hin Hv [] 0%nat) as (shown' & e & Hloop).
    rewrite Hloop. exists e. reflexivity.
Qed.

(** C4, which the code breaks.  An event without a [level] field that
    reaches the print statement is not printed with a placeholder: the
    format specification [>5] is applied to [None], which raises
    [TypeError] and ends the run.  Here the log holds the single line
    [{}] and no filter is given. *)
Theorem missing_level_raises_type_error :
  json_loads (txt "{}") = Some (PDict []) ->
  main json_loads py_repr (Args None None) (Lines (txt "{}"))
  = Outcome [] (inl TypeError).
Proof.
  intros Hparse. unfold main, iter_events.
  change (split_nl (txt "{}")) with [txt "{}"].
  cbn [omap list_omap]. unfold parse_line.
  change (strip (txt "{}")) with (txt "{}").
  rewrite bool_decide_eq_false_2 by discriminate.
  rewrite Hparse. reflexivity.
Qed.

End LogViewerFacts.

Lemma non_object_line_aborts_run_witness :
  exists e, LogViewer.ret
    (LogViewer.main loads_sample no_repr (LogViewer.Args None None)
       (LogViewer.Lines (txt "42"))) = inl e.
Proof.
  apply (non_object_line_aborts_run loads_sample no_repr (LogViewer.Args None None)
           (txt "42") (txt "42") (LogViewer.PInt 42)).
  - apply list_elem_of_here.
  - discriminate.
  - reflexivity.
  - reflexivity.
Defined.

Lemma missing_level_raises_type_error_witness :
  LogViewer.main loads_sample no_repr (LogViewer.Args None None)
    (LogViewer.Lines (txt "{}"))
  = LogViewer.Outcome [] (inl LogViewer.TypeError).
Proof.
  apply (missing_level_raises_type_error loads_sample no_repr). reflexivity.
Defined.

Section BackupFacts.

Import Fixers.

Variable is_decimal : N -> bool.



(** A Markdown path is never the backup path of another one. *)
Lemma md_path_not_bak (p q : text) : MD `suffix_of` q -> q <> bak_path p.
Proof.
  intros [k ->] H. apply (f_equal (@last N)) in H. unfold bak_path in H.
  change MD with ([46; 109] ++ [100]) in H.
  change BAK with ([46; 98; 97] ++ [107]) in H.
  rewrite !app_assoc, !last_snoc in H. discriminate.
Qed.








End BackupFacts.



(** The loop body of LintStyleFixer writes the backup without looking
    whether one is there: an older backup is replaced. *)
Lemma lint_step_replaces_stale_backup :
  exists st',
    Fixers.lint_step
      (Fixers.State (<[txt "a.md" := Fixers.File para_then_text_fence]>
                       (<[txt "a.md.bak" := Fixers.File (txt "old")]> ∅))
                    [] [] []) a_md = inr st'
    /\ Fixers.files st' !! Fixers.bak_path a_md
       = Some (Fixers.File para_then_text_fence).
Proof. eexists. split; reflexivity. Qed.

Section LogViewerRuns.

Import LogViewer.

Variable json_loads : text -> option pyval.
Variable py_repr : pyval -> text.

Lemma well_formed_inv (event : pyval) :
  well_formed event = true ->
  exists items lv,
    event = PDict items
    /\ lookup_item KEY_LEVEL items = Some lv
    /\ formattable lv = true
    /\ (lookup_item KEY_LOGGER items = None
        \/ exists s, lookup_item KEY_LOGGER items = Some (PStr s)).
Proof.
  unfold well_formed. destruct event as [| | | | | |items]; try discriminate.
  simpl. destruct (lookup_item KEY_LEVEL items) as [lv|] eqn:Hlv; [|discriminate].
  intros H. apply andb_prop in H as [Hfmt Hlg].
  exists items, lv. split; [reflexivity|]. split; [exact Hlv|].
  split; [exact Hfmt|].
  destruct (lookup_item KEY_LOGGER items) as [[| | | |s| |]|];
    try discriminate; eauto.
Qed.

Lemma differs_false (v : pyval) (lv : text) :
  negb (differs v lv) = true <-> v = PStr lv.
Proof.
  destruct v; simpl; try (split; [discriminate | intros [=]]).
  rewrite negb_true_iff, bool_decide_eq_false. split.
  - intros H. f_equal. destruct (decide (s = lv)); [assumption | contradiction].
  - intros [= ->] Hne. apply Hne. reflexivity.
Qed.

Lemma admits_spec (a : args) (event : pyval) :
  is_dict event = true ->
  admits a event = true <-> filter_admits a event.
Proof.
  intros Hdict. unfold admits, filter_admits. rewrite andb_true_iff.
  assert (Hlevel : forall lv,
    negb (differs (default PNone (field event KEY_LEVEL)) lv) = true
    <-> field event KEY_LEVEL = Some (PStr lv)).
  { intros lv. rewrite differs_false.
    destruct (field event KEY_LEVEL) as [v|]; simpl.
    - split; intros H; congruence.
    - split; discriminate. }
  destruct (given (level a)) as [lv|], (given (logger a)) as [lg|].
  - rewrite Hlevel. split.
    + intros [H1 H2]. split; right; eauto.
    + intros [[?|(lv' & [= <-] & H1)] [?|(lg' & [= <-] & H2)]]; try discriminate.
      split; assumption.
  - rewrite Hlevel. split.
    + intros [H1 _]. split; [right; eauto | left; reflexivity].
    + intros [[?|(lv' & [= <-] & H1)] _]; try discriminate.
      split; [assumption | reflexivity].
  - split.
    + intros [_ H2]. split; [left; reflexivity | right; eauto].
    + intros [_ [?|(lg' & [= <-] & H2)]]; try discriminate.
      split; [reflexivity | assumption].
  - split; [intros _; split; left; reflexivity | intros _; split; reflexivity].
Qed.

Lemma passes_well_formed (a : args) (event : pyval) :
  well_formed event = true -> passes a event = inr (admits a event).
Proof.
  intros Hwf. destruct (well_formed_inv event Hwf)
    as (items & lv & -> & Hlv & _ & Hlg).
  unfold passes, admits, logger_text. simpl. rewrite Hlv. simpl.
  destruct (given (level a)) as [flt|]; simpl.
  - destruct (differs lv flt); simpl; [reflexivity|].
    destruct (given (logger a)) as [lg|]; [|reflexivity].
    destruct Hlg as [-> | [s ->]]; reflexivity.
  - destruct (given (logger a)) as [lg|]; [|reflexivity].
    destruct Hlg as [-> | [s ->]]; reflexivity.
Qed.

Lemma render_well_formed (event : pyval) :
  well_formed event = true -> exists l, render py_repr event = inr l.
Proof.
  intros Hwf. destruct (well_formed_inv event Hwf)
    as (items & lv & -> & Hlv & Hfmt & _).
  unfold render. simpl. rewrite Hlv. simpl.
  destruct lv; try discriminate; simpl; eexists; reflexivity.
Qed.



(** C6 as the code has it.  For an event that is an object with a
    level that can be formatted and a logger that is a string or absent,
    the event is displayed exactly when no non-empty level filter is
    given or its level field equals the filter, and no non-empty logger
    filter is given or its logger name (empty when absent) starts with
    the filter. *)
Theorem shown_iff_filter_admits (a : args) (event : pyval) :
  well_formed event = true ->
  shown_by py_repr a event <-> filter_admits a event.
Proof.
  intros Hwf.
  assert (Hdict : is_dict event = true).
  { destruct (well_formed_inv event Hwf) as (items & ? & -> & _). reflexivity. }
  rewrite <- (admits_spec a event Hdict).
  unfold shown_by. simpl. rewrite (passes_well_formed a event Hwf).
  destruct (render_well_formed event Hwf) as [l Hl].
  destruct (admits a event).
  - rewrite Hl. split; [reflexivity | intros _; exists l; reflexivity].
  - split; [intros [l' [=]] | discriminate].
Qed.

End LogViewerRuns.



Lemma shown_iff_filter_admits_witness :
  LogViewer.shown_by no_repr empty_level_filter info_event
  <-> LogViewer.filter_admits empty_level_filter info_event.
Proof.
  apply (shown_iff_filter_admits no_repr empty_level_filter info_event).
  reflexivity.
Defined.

(** C6 as stated fails on the code.  With [--level ''] the filter is
    given and the level [INFO] does not equal it, yet the event is
    displayed: the code tests the truth value of the argument, and the
    empty string is false. *)
Lemma empty_level_filter_shows_event :
  LogViewer.shown_by no_repr empty_level_filter info_event
  /\ ~ LogViewer.claimed_shown empty_level_filter info_event.
Proof.
  split.
  - eexists. reflexivity.
  - intros [[Hnone | (lv & [= <-] & Hlv)] _]; discriminate.
Qed.

Section JavadocFacts.

Import Javadoc.

Variable is_word : N -> bool.

(** [at_line_start bol s i]: offset [i] of [s] is where a line begins
    ([bol] tells it for offset 0). *)
Lemma search_from_spec (s : text) :
  forall bol i,
    search_from is_word bol s = Some i ->
    decl_at is_word (drop i s) = true
    /\ match i with
       | O => bol = true
       | S j => s !! j = Some NL
       end
    /\ forall j, (j < i)%nat ->
         match j with
         | O => bol = true
         | S j' => s !! j' = Some NL
         end ->
         decl_at is_word (drop j s) = false.
Proof.
  induction s as [|c s IH]; intros bol i; simpl.
  - destruct (bol && decl_at is_word []) eqn:Hhere; [|discriminate].
    intros [= <-]. apply andb_prop in Hhere as [-> Hd].
    split; [exact Hd|]. split; [reflexivity|]. intros j Hj. lia.
  - destruct (bol && decl_at is_word (c :: s)) eqn:Hhere.
    + intros [= <-]. apply andb_prop in Hhere as [-> Hd].
      split; [exact Hd|]. split; [reflexivity|]. intros j Hj. lia.
    + destruct (search_from is_word (c =? NL) s) as [i'|] eqn:Hs; [|discriminate].
      simpl. intros [= <-]. destruct (IH _ _ Hs) as (Hd & Hbol & Hmin).
      split; [exact Hd|]. split.
      * destruct i' as [|j]; simpl.
        -- apply N.eqb_eq in Hbol. rewrite Hbol. reflexivity.
        -- exact Hbol.
      * intros [|j] Hj Hline.
        -- subst bol. simpl in Hhere. exact Hhere.
        -- simpl. apply Hmin; [lia|].
           destruct j as [|j']; simpl in Hline.
           ++ injection Hline as ->. reflexivity.
           ++ exact Hline.
Qed.

Lemma scan_spec (lines : list text) :
  scan lines = true <-> marker_reached lines.
Proof.
  induction lines as [|line rest IH].
  - split; [discriminate|]. intros (k & l & Hk & _). destruct k; discriminate.
  - cbn [scan]. destruct (contains MARKER line) eqn:Hm.
    { split; [|reflexivity]. intros _. exists 0%nat, line.
      split; [reflexivity|]. split; [exact Hm|]. intros j l Hj. lia. }
    assert (Hshift : skippable line = true ->
                     marker_reached rest <-> marker_reached (line :: rest)).
    { intros Hskip. split.
      - intros (k & l & Hk & Hl & Hbefore). exists (S k), l.
        split; [exact Hk|]. split; [exact Hl|].
        intros [|j] l' Hj Hl'; simpl in Hl'.
        + injection Hl' as <-. exact Hskip.
        + apply (Hbefore j); [lia | exact Hl'].
      - intros (k & l & Hk & Hl & Hbefore). destruct k as [|k]; simpl in Hk.
        + injection Hk as <-. congruence.
        + exists k, l. split; [exact Hk|]. split; [exact Hl|].
          intros j l' Hj Hl'. apply (Hbefore (S j)); [lia | exact Hl']. }
    destruct (passable line) eqn:Hp.
    { etransitivity; [exact IH|].
      apply Hshift. unfold skippable. rewrite Hp. reflexivity. }
    destruct (starts_with SLASH_SLASH (strip line)) eqn:Hc; cbn [negb].
    { etransitivity; [exact IH|].
      apply Hshift. unfold skippable. rewrite Hp, Hc. reflexivity. }
    split; [discriminate|].
    intros (k & l & Hk & Hl & Hbefore). destruct k as [|k]; simpl in Hk.
    + injection Hk as <-. congruence.
    + specialize (Hbefore 0%nat line ltac:(lia) eq_refl).
      unfold skippable in Hbefore. rewrite Hp, Hc in Hbefore. discriminate.
Qed.

(** C3 as the code has it.  For a source text with a public type
    declaration, the match begins at the first line start from which
    the pattern matches (its leading whitespace may span the blank
    lines above the declaration); the window is the last ten lines of
    the text before the match, trailing newlines removed; and the file
    is listed exactly when, going up that window, no line holding the
    marker is reached before a line that is neither blank, nor starts
    with [*], [/*] or [//].  In particular the file is listed when the
    nearest line of the window that cannot be skipped holds no marker
    and no line below it does. *)
Theorem listed_iff_no_marker_reached (s : text) (start : nat) :
  search is_word s = Some start ->
  (decl_at is_word (drop start s) = true
   /\ (start = 0%nat \/ s !! pred start = Some NL)
   /\ forall j, (j < start)%nat -> (j = 0%nat \/ s !! pred j = Some NL) ->
        decl_at is_word (drop j s) = false)
  /\ (check is_word s = Some true
      <-> ~ marker_reached (rev (prev_lines s start)))
  /\ (forall above line below,
        prev_lines s start = above ++ line :: below ->
        skippable line = false ->
        contains MARKER line = false ->
        Forall (fun l => skippable l = true /\ contains MARKER l = false) below ->
        check is_word s = Some true).
Proof.
  intros Hsearch.
  destruct (search_from_spec s true start Hsearch) as (Hd & Hline & Hmin).
  assert (Hcheck : check is_word s = Some true
                   <-> ~ marker_reached (rev (prev_lines s start))).
  { unfold check. rewrite Hsearch. rewrite <- scan_spec.
    destruct (scan (rev (prev_lines s start))); simpl.
    - split; [discriminate | intros H; exfalso; apply H; reflexivity].
    - split; [intros _; discriminate | reflexivity]. }
  split; [|split].
  - split; [exact Hd|]. split.
    + destruct start; [left; reflexivity | right; exact Hline].
    + intros j Hj Hstart. apply Hmin; [exact Hj|].
      destruct j; [reflexivity|]. destruct Hstart as [|H]; [discriminate | exact H].
  - exact Hcheck.
  - intros above line below Hwin Hskip Hmark Hbelow. apply Hcheck.
    rewrite Hwin, rev_app_distr. simpl. rewrite <- app_assoc. simpl.
    intros (k & l & Hk & Hl & Hbefore).
    assert (Hlen : length (rev below) = length below) by apply length_rev.
    destruct (decide (k < length below)%nat) as [Hlt | Hge].
    + rewrite lookup_app_l in Hk by lia.
      apply list_elem_of_lookup_2, list_elem_of_In, in_rev, list_elem_of_In in Hk.
      rewrite Forall_forall in Hbelow. destruct (Hbelow l Hk). congruence.
    + destruct (decide (k = length below)) as [-> | Hne].
      * rewrite lookup_app_r in Hk by lia.
        replace (length below - length (rev below))%nat with 0%nat in Hk by lia.
        simpl in Hk. injection Hk as <-. congruence.
      * specialize (Hbefore (length below) line ltac:(lia)).
        rewrite lookup_app_r in Hbefore by lia.
        replace (length below - length (rev below))%nat with 0%nat in Hbefore by lia.
        specialize (Hbefore eq_refl). congruence.
Qed.

End JavadocFacts.

Lemma listed_iff_no_marker_reached_witness :
  Javadoc.check ascii_word doc_far_above = Some true
  <-> ~ Javadoc.marker_reached (rev (Javadoc.prev_lines doc_far_above 9)).
Proof.
  apply (listed_iff_no_marker_reached ascii_word doc_far_above 9).
  reflexivity.
Defined.

(** C3 as stated fails on the code.  With ten empty lines between the
    documentation comment and the declaration, the ten lines
    immediately above the declaration are all blank and hold no marker,
    so the claim lists the file; the scanner does not, because its
    window ends above those lines and is the comment line itself. *)
Lemma blank_lines_above_declaration_do_not_count :
  Javadoc.search ascii_word doc_far_above = Some 9%nat
  /\ Javadoc.prev_lines doc_far_above 9 = [txt "/** d */"]
  /\ Javadoc.claimed_prev_lines doc_far_above 9 = replicate 10 []
  /\ Javadoc.check ascii_word doc_far_above = Some false
  /\ Javadoc.claimed_check ascii_word doc_far_above = Some true.
Proof. repeat split; reflexivity. Qed.

Section SubstitutionFacts.

Variable m : text -> option (text * nat).



(** Without a match at the head the character is kept. *)
Lemma re_sub_miss (c : N) (s : text) :
  m (c :: s) = None -> re_sub m (c :: s) = c :: re_sub m s.
Proof. intros Hm. unfold re_sub. cbn [re_sub_from]. rewrite Hm. reflexivity. Qed.

(** A text the pattern matches nowhere in is returned as it is. *)
Lemma re_sub_no_match (s : text) : any_match m s = false -> re_sub m s = s.
Proof.
  induction s as [|c s IH]; [reflexivity|].
  cbn [any_match]. destruct (m (c :: s)) eqn:Hm; [discriminate|].
  intros Hrest. rewrite (re_sub_miss c s Hm), (IH Hrest). reflexivity.
Qed.

End SubstitutionFacts.

Section LintFacts.

Import LintStyle.


(** A prefix test that succeeds on a text cut by a character foreign to
    the pattern succeeds before the cut. *)
Lemma starts_with_before (p t : text) (c : N) (b : text) :
  c ∉ p -> starts_with p (t ++ c :: b) = true -> starts_with p t = true.
Proof.
  revert t. induction p as [|a p IH]; intros t Hc; [reflexivity|].
  destruct t as [|x t]; simpl.
  - intros H. apply andb_prop in H as [H _]. apply N.eqb_eq in H.
    exfalso. apply Hc. subst. left.
  - intros H. apply andb_prop in H as [H1 H2]. rewrite H1. simpl.
    apply IH; [|exact H2]. intros Hin. apply Hc. right. exact Hin.
Qed.

Lemma contains_cons (p : text) (c : N) (s : text) :
  contains p (c :: s) = false ->
  starts_with p (c :: s) = false /\ contains p s = false.
Proof. cbn [contains]. apply orb_false_elim. Qed.

Lemma tag_at_none (s : text) : starts_with TAG s = false -> tag_at s = None.
Proof. unfold tag_at. intros ->. reflexivity. Qed.


Lemma replace_tag_clean (s : text) : contains TAG s = false -> replace_tag s = s.
Proof.
  intros Hs. apply re_sub_no_match.
  induction s as [|c s IH].
  - reflexivity.
  - apply contains_cons in Hs as [Hhead Hrest]. cbn [any_match].
    rewrite (tag_at_none _ Hhead). apply IH, Hrest.
Qed.

Lemma url_run_app (body : text) (r : text) :
  forallb url_char body = true -> url_run (body ++ GT :: r) = body.
Proof.
  induction body as [|c body IH]; [reflexivity|]. simpl.
  intros H. apply andb_prop in H as [Hc Hrest]. rewrite Hc.
  f_equal. apply IH, Hrest.
Qed.

Lemma url_re_head (sch body r : text) :
  sch = HTTP \/ sch = HTTPS ->
  body <> [] ->
  forallb url_char body = true ->
  url_re (LT :: sch ++ body ++ GT :: r)
  = Some (txt "[" ++ (sch ++ body) ++ txt "](" ++ (sch ++ body) ++ txt ")",
          S (S (length (sch ++ body)))).
Proof.
  intros Hsch Hne Hbody. unfold url_re. rewrite N.eqb_refl.
  assert (Hs : scheme_at (sch ++ body ++ GT :: r) = Some sch).
  { destruct Hsch as [-> | ->]; reflexivity. }
  rewrite Hs. rewrite drop_app_length.
  rewrite (url_run_app body r Hbody).
  assert (Hdrop : drop (length sch + length body) (sch ++ body ++ GT :: r)
                  = GT :: r).
  { rewrite app_assoc, <- length_app, drop_app_length. reflexivity. }
  destruct body as [|c body]; [contradiction|].
  rewrite Hdrop. reflexivity.
Qed.

Lemma not_in_tag (c : N) : c <> BT -> c <> 116 -> c <> 101 -> c <> 120 -> c ∉ TAG.
Proof.
  intros H1 H2 H3 H4 Hin. unfold TAG in Hin.
  repeat (apply elem_of_cons in Hin as [-> | Hin]; [contradiction|]).
  apply elem_of_nil in Hin. exact Hin.
Qed.


End LintFacts.



(** * Further properties of the scripts *)

Section SubstitutionInduction.

Variable m : text -> option (text * nat).

Lemma re_sub_from_drop (k : nat) (s : text) :
  re_sub_from m k s = re_sub_from m 0 (drop k s).
Proof.
  revert k. induction s as [|c s IH]; intros [|k]; try reflexivity.
  simpl. apply IH.
Qed.

(** After a match at the head the scan resumes behind the match. *)
Lemma re_sub_unfold (c : N) (s r : text) (n : nat) :
  m (c :: s) = Some (r, n) ->
  re_sub m (c :: s) = r ++ re_sub m (drop (pred n) s).
Proof.
  intros Hm. unfold re_sub. cbn [re_sub_from]. rewrite Hm.
  f_equal. apply re_sub_from_drop.
Qed.

(** Induction along the scan of [re_sub]. *)
Lemma re_sub_ind (R : text -> text -> Prop) :
  R [] [] ->
  (forall c s o, m (c :: s) = None -> R s o -> R (c :: s) (c :: o)) ->
  (forall c s r n o,
     m (c :: s) = Some (r, n) -> R (drop (pred n) s) o -> R (c :: s) (r ++ o)) ->
  forall s, R s (re_sub m s).
Proof.
  intros Hnil Hmiss Hhit s.
  induction s as [s IH] using (induction_ltof1 _ (@length N)).
  unfold ltof in IH. destruct s as [|c s]; [exact Hnil|].
  destruct (m (c :: s)) as [[r n]|] eqn:Hm.
  - rewrite (re_sub_unfold c s r n Hm). apply (Hhit c s r n _ Hm).
    apply IH. simpl. rewrite length_drop. lia.
  - rewrite (re_sub_miss m c s Hm). apply (Hmiss c s _ Hm).
    apply IH. simpl. lia.
Qed.

End SubstitutionInduction.

Section SpacingShape.

Import FenceSpacing.

Variable is_decimal : N -> bool.

Lemma fence_start_re_inv (t r : text) (n : nat) :
  fence_start_re t = Some (r, n) ->
  exists c rest,
    t = c :: NL :: BT :: BT :: BT :: rest
    /\ c <> NL /\ r = [c; NL; NL; BT; BT; BT] /\ n = 5%nat.
Proof.
  unfold fence_start_re.
  destruct t as [|c [|x [|b1 [|b2 [|b3 rest]]]]]; try discriminate.
  destruct (N.eqb_spec c NL), (N.eqb_spec x NL), (N.eqb_spec b1 BT),
    (N.eqb_spec b2 BT), (N.eqb_spec b3 BT); simpl; try discriminate.
  intros [= <- <-]. subst. exists c, rest. auto.
Qed.

Lemma fence_end_re_inv (t r : text) (n : nat) :
  fence_end_re t = Some (r, n) ->
  exists c rest,
    t = BT :: BT :: BT :: NL :: c :: rest
    /\ c <> NL /\ c <> BT /\ r = [BT; BT; BT; NL; NL; c] /\ n = 5%nat.
Proof.
  unfold fence_end_re.
  destruct t as [|b1 [|b2 [|b3 [|x [|c rest]]]]]; try discriminate.
  destruct (N.eqb_spec b1 BT), (N.eqb_spec b2 BT), (N.eqb_spec b3 BT),
    (N.eqb_spec x NL), (N.eqb_spec c NL), (N.eqb_spec c BT);
    simpl; try discriminate.
  intros [= <- <-]. subst. exists c, rest. auto.
Qed.

Lemma list_re_inv (t r : text) (n : nat) :
  list_re is_decimal t = Some (r, n) ->
  exists c rest,
    t = c :: NL :: rest
    /\ c <> NL /\ list_ahead is_decimal rest = true
    /\ r = [c; NL; NL] /\ n = 2%nat.
Proof.
  unfold list_re. destruct t as [|c [|x rest]]; try discriminate.
  destruct (N.eqb_spec c NL), (N.eqb_spec x NL); simpl; try discriminate.
  destruct (list_ahead is_decimal rest) eqn:Ha; try discriminate.
  intros [= <- <-]. subst. exists c, rest. auto.
Qed.

Lemma filter_newline (l : text) :
  filter (fun c => c <> NL) (NL :: l) = filter (fun c => c <> NL) l.
Proof. apply filter_cons_False. intros H. apply H. reflexivity. Qed.

(** A substitution whose replacements only add characters the filter
    [P] drops keeps the [P]-part of the text and the text as a
    subsequence. *)
Lemma re_sub_only_adds (m : text -> option (text * nat)) :
  (forall c s r n,
     m (c :: s) = Some (r, n) ->
     (0 < n)%nat
     /\ filter (fun c => c <> NL) r = filter (fun c => c <> NL) (take n (c :: s))
     /\ take n (c :: s) `sublist_of` r) ->
  forall s,
    filter (fun c => c <> NL) (re_sub m s) = filter (fun c => c <> NL) s
    /\ s `sublist_of` re_sub m s.
Proof.
  intros Hm.
  apply (re_sub_ind m (fun s o =>
           filter (fun c => c <> NL) o = filter (fun c => c <> NL) s
           /\ s `sublist_of` o)).
  - split; [reflexivity | constructor].
  - intros c s o _ [Hf Hs]. split.
    + rewrite !filter_cons, Hf. reflexivity.
    + apply sublist_skip, Hs.
  - intros c s r n o Hhit [Hf Hs].
    destruct (Hm c s r n Hhit) as (Hpos & Hfr & Hsr).
    assert (Hcut : c :: s = take n (c :: s) ++ drop (pred n) s).
    { destruct n as [|n]; [lia|]. simpl. rewrite take_drop. reflexivity. }
    split.
    + rewrite filter_app, Hfr, Hf, <- filter_app, <- Hcut. reflexivity.
    + rewrite Hcut at 1. apply sublist_app; assumption.
Qed.

(** Each of the three substitutions inserts one newline per match and
    nothing else. *)
Lemma fence_start_only_adds (s : text) :
  filter (fun c => c <> NL) (re_sub fence_start_re s)
  = filter (fun c => c <> NL) s
  /\ s `sublist_of` re_sub fence_start_re s.
Proof.
  apply re_sub_only_adds. intros c s0 r n H.
  apply fence_start_re_inv in H as (c' & rest & [= -> ->] & _ & -> & ->).
  split; [lia|]. simpl take. split.
  - rewrite !(filter_cons _ c'), !filter_newline. reflexivity.
  - apply sublist_skip, sublist_skip, sublist_cons. reflexivity.
Qed.

Lemma fence_end_only_adds (s : text) :
  filter (fun c => c <> NL) (re_sub fence_end_re s)
  = filter (fun c => c <> NL) s
  /\ s `sublist_of` re_sub fence_end_re s.
Proof.
  apply re_sub_only_adds. intros c s0 r n H.
  apply fence_end_re_inv in H as (c' & rest & [= -> ->] & _ & _ & -> & ->).
  split; [lia|]. simpl take. split.
  - rewrite !(filter_cons _ BT), !filter_newline. reflexivity.
  - do 4 apply sublist_skip. apply sublist_cons. reflexivity.
Qed.

Lemma list_only_adds (s : text) :
  filter (fun c => c <> NL) (re_sub (list_re is_decimal) s)
  = filter (fun c => c <> NL) s
  /\ s `sublist_of` re_sub (list_re is_decimal) s.
Proof.
  apply re_sub_only_adds. intros c s0 r n H.
  apply list_re_inv in H as (c' & rest & [= -> ->] & _ & _ & -> & ->).
  split; [lia|]. simpl take. split.
  - rewrite !(filter_cons _ c'), !filter_newline. reflexivity.
  - apply sublist_skip, sublist_skip, sublist_cons. reflexivity.
Qed.

(** X1.  FenceSpacingFixer only inserts newlines: without its newlines
    the transformed text is the original without its newlines, and the
    original is a subsequence of the transformed text. *)
Theorem spacing_transform_only_inserts_newlines (s : text) :
  filter (fun c => c <> NL) (transform is_decimal s)
  = filter (fun c => c <> NL) s
  /\ s `sublist_of` transform is_decimal s.
Proof.
  unfold transform. cbv zeta.
  destruct (fence_start_only_adds s) as [F1 S1].
  destruct (fence_end_only_adds (re_sub fence_start_re s)) as [F2 S2].
  destruct (list_only_adds (re_sub fence_end_re (re_sub fence_start_re s)))
    as [F3 S3].
  split.
  - rewrite F3, F2, F1. reflexivity.
  - etransitivity; [exact S1|]. etransitivity; [exact S2 | exact S3].
Qed.

Lemma no_match_without_newline (m : text -> option (text * nat)) :
  (forall t r n, m t = Some (r, n) -> NL ∈ t) ->
  forall s, NL ∉ s -> any_match m s = false.
Proof.
  intros Hm s. induction s as [|c s IH]; intros Hs.
  - simpl. destruct (m []) as [[r n]|] eqn:H; [|reflexivity].
    apply Hm in H. apply elem_of_nil in H. contradiction.
  - cbn [any_match]. destruct (m (c :: s)) as [[r n]|] eqn:H.
    + apply Hm in H. contradiction.
    + apply IH. intros Hin. apply Hs. right. exact Hin.
Qed.

(** X2.  A text without a newline is left as it is by
    FenceSpacingFixer: every pattern needs a line break to match. *)
Theorem spacing_transform_single_line (s : text) :
  NL ∉ s -> transform is_decimal s = s.
Proof.
  intros Hs. unfold transform. cbv zeta.
  rewrite (re_sub_no_match fence_start_re s).
  - rewrite (re_sub_no_match fence_end_re s).
    + apply re_sub_no_match. apply no_match_without_newline; [|exact Hs].
      intros t r n H. apply list_re_inv in H as (c & rest & -> & _).
      right. left.
    + apply no_match_without_newline; [|exact Hs].
      intros t r n H. apply fence_end_re_inv in H as (c & rest & -> & _).
      do 3 right. left.
  - apply no_match_without_newline; [|exact Hs].
    intros t r n H. apply fence_start_re_inv in H as (c & rest & -> & _).
    right. left.
Qed.

End SpacingShape.

Section LintShape.

Import LintStyle.

Lemma starts_with_split (p t : text) :
  starts_with p t = true -> t = p ++ drop (length p) t.
Proof.
  revert t. induction p as [|a p IH]; intros t; [reflexivity|].
  destruct t as [|x t]; simpl; [discriminate|].
  intros H. apply andb_prop in H as [H1 H2]. apply N.eqb_eq in H1. subst x.
  f_equal. apply IH, H2.
Qed.

Lemma scheme_at_inv (t sch : text) :
  scheme_at t = Some sch ->
  (sch = HTTP \/ sch = HTTPS) /\ t = sch ++ drop (length sch) t.
Proof.
  unfold scheme_at.
  destruct (starts_with HTTPS t) eqn:Hs.
  - intros [= <-]. split; [right; reflexivity | apply starts_with_split, Hs].
  - destruct (starts_with HTTP t) eqn:Hp; [|discriminate].
    intros [= <-]. split; [left; reflexivity | apply starts_with_split, Hp].
Qed.

Lemma url_run_split (t : text) :
  forallb url_char (url_run t) = true
  /\ t = url_run t ++ drop (length (url_run t)) t.
Proof.
  induction t as [|c t [IH1 IH2]]; [split; reflexivity|].
  simpl. destruct (url_char c) eqn:Hc; [|split; reflexivity].
  split.
  - simpl. rewrite Hc. exact IH1.
  - simpl. f_equal. exact IH2.
Qed.

(** The pattern matches nothing but an angle-bracketed URL. *)
Lemma url_re_inv (t r : text) (n : nat) :
  url_re t = Some (r, n) ->
  exists sch body rest,
    t = LT :: sch ++ body ++ GT :: rest
    /\ (sch = HTTP \/ sch = HTTPS)
    /\ body <> []
    /\ forallb url_char body = true
    /\ r = txt "[" ++ (sch ++ body) ++ txt "](" ++ (sch ++ body) ++ txt ")"
    /\ n = S (S (length (sch ++ body))).
Proof.
  unfold url_re. destruct t as [|c t]; [discriminate|].
  destruct (N.eqb_spec c LT) as [-> | _]; [|discriminate].
  destruct (scheme_at t) as [sch|] eqn:Hsch; [|discriminate].
  apply scheme_at_inv in Hsch as [Hsch Ht].
  destruct (url_run_split (drop (length sch) t)) as [Hbody Hrun].
  set (body := url_run (drop (length sch) t)) in *.
  destruct body as [|b0 body0] eqn:Eb; [discriminate|]. rewrite <- Eb in *.
  destruct (drop (length sch + length body) t) as [|g rest] eqn:Hrest;
    [discriminate|].
  destruct (N.eqb_spec g GT) as [-> | _]; [|discriminate].
  intros [= <- <-]. exists sch, body, rest.
  split; [|split; [exact Hsch|split; [rewrite Eb; discriminate|]]].
  - f_equal. rewrite Ht at 1. f_equal. rewrite Hrun at 1. f_equal.
    rewrite drop_drop. rewrite Nat.add_comm at 1. rewrite Nat.add_comm.
    exact Hrest.
  - split; [exact Hbody|]. split; reflexivity.
Qed.

(** The characters of a match up to the closing bracket hold no
    newline. *)
Lemma url_match_one_line (sch body : text) :
  sch = HTTP \/ sch = HTTPS ->
  forallb url_char body = true ->
  NL ∉ LT :: sch ++ body ++ [GT].
Proof.
  intros Hsch Hbody Hin.
  apply elem_of_cons in Hin as [H | Hin]; [discriminate|].
  apply elem_of_app in Hin as [Hin | Hin].
  - destruct Hsch as [-> | ->]; unfold HTTP, HTTPS in Hin;
      repeat (apply elem_of_cons in Hin as [H | Hin]; [discriminate|]);
      apply elem_of_nil in Hin; exact Hin.
  - apply elem_of_app in Hin as [Hin | Hin].
    + rewrite forallb_forall in Hbody. apply list_elem_of_In in Hin.
      specialize (Hbody _ Hin). discriminate.
    + apply elem_of_cons in Hin as [H | Hin]; [discriminate|].
      apply elem_of_nil in Hin. exact Hin.
Qed.

(** A text that begins like [p ++ rest] with [p] free of newlines and
    is cut at a newline has [p] before the cut. *)
Lemma prefix_before_newline (t b p rest : text) :
  NL ∉ p -> t ++ NL :: b = p ++ rest -> exists t', t = p ++ t'.
Proof.
  revert t. induction p as [|x p IH]; intros t Hp Heq; [exists t; reflexivity|].
  destruct t as [|y t]; simpl in Heq.
  - injection Heq as <- _. exfalso. apply Hp. left.
  - injection Heq as -> Heq. destruct (IH t) as [t' ->]; [|exact Heq|].
    + intros Hin. apply Hp. right. exact Hin.
    + exists t'. reflexivity.
Qed.

Lemma url_re_line (t b : text) : url_re (t ++ NL :: b) = url_re t.
Proof.
  destruct (url_re t) as [[r n]|] eqn:Ht.
  - apply url_re_inv in Ht
      as (sch & body & rest & -> & Hsch & Hne & Hbody & -> & ->).
    replace ((LT :: sch ++ body ++ GT :: rest) ++ NL :: b)
      with (LT :: sch ++ body ++ GT :: (rest ++ NL :: b)).
    + apply url_re_head; assumption.
    + simpl. rewrite <- !app_assoc. reflexivity.
  - destruct (url_re (t ++ NL :: b)) as [[r n]|] eqn:Hl; [|reflexivity].
    apply url_re_inv in Hl
      as (sch & body & rest & Heq & Hsch & Hne & Hbody & _ & _).
    assert (Heq' : t ++ NL :: b = (LT :: sch ++ body ++ [GT]) ++ rest).
    { rewrite Heq. simpl. rewrite <- !app_assoc. reflexivity. }
    apply prefix_before_newline in Heq' as [t' ->];
      [|apply url_match_one_line; assumption].
    replace ((LT :: sch ++ body ++ [GT]) ++ t')
      with (LT :: sch ++ body ++ GT :: t') in Ht.
    + rewrite url_re_head in Ht by assumption. discriminate.
    + simpl. rewrite <- !app_assoc. reflexivity.
Qed.

Lemma starts_with_app_r (p t b : text) :
  starts_with p t = true -> starts_with p (t ++ b) = true.
Proof.
  revert t. induction p as [|a p IH]; intros t; [reflexivity|].
  destruct t as [|x t]; simpl; [discriminate|].
  intros H. apply andb_prop in H as [H1 H2]. rewrite H1. simpl.
  apply IH, H2.
Qed.

Lemma starts_with_length (p t : text) :
  starts_with p t = true -> (length p <= length t)%nat.
Proof.
  intros H. rewrite (starts_with_split p t H), length_app. lia.
Qed.

Lemma tag_at_line (t b : text) : tag_at (t ++ NL :: b) = tag_at t.
Proof.
  unfold tag_at.
  destruct (starts_with TAG t) eqn:Ht.
  - rewrite (starts_with_app_r TAG t _ Ht). reflexivity.
  - destruct (starts_with TAG (t ++ NL :: b)) eqn:Hl; [|reflexivity].
    apply starts_with_before in Hl; [congruence|].
    apply not_in_tag; discriminate.
Qed.

(** A substitution whose matches lie within a line works line by
    line. *)
Lemma re_sub_line (m : text -> option (text * nat)) :
  (forall t b, m (t ++ NL :: b) = m t) ->
  m [] = None ->
  (forall t r n, m t = Some (r, n) -> (0 < n <= length t)%nat) ->
  forall a b, re_sub m (a ++ NL :: b) = re_sub m a ++ NL :: re_sub m b.
Proof.
  intros Hline Hnil Hlen a b.
  induction a as [a IH] using (induction_ltof1 _ (@length N)).
  unfold ltof in IH. destruct a as [|c a].
  - simpl. apply re_sub_miss. pose proof (Hline [] b) as H0. simpl in H0.
    rewrite H0. exact Hnil.
  - change ((c :: a) ++ NL :: b) with (c :: (a ++ NL :: b)).
    pose proof (Hline (c :: a) b) as Hsame. simpl in Hsame.
    destruct (m (c :: a)) as [[r n]|] eqn:Hm.
    + rewrite (re_sub_unfold m c _ r n Hsame), (re_sub_unfold m c a r n Hm).
      specialize (Hlen _ _ _ Hm). simpl in Hlen.
      rewrite drop_app_le by lia. rewrite IH.
      * rewrite <- app_assoc. reflexivity.
      * simpl. rewrite length_drop. lia.
    + rewrite (re_sub_miss m c _ Hsame), (re_sub_miss m c a Hm).
      rewrite IH by (simpl; lia). reflexivity.
Qed.

(** X3.  LintStyleFixer works line by line: the transformed text is
    made of the transformed lines, no tag and no URL spanning a line
    break. *)
Theorem lint_transform_line_by_line (a b : text) :
  transform (a ++ NL :: b) = transform a ++ NL :: transform b.
Proof.
  unfold transform, replace_tag.
  rewrite (re_sub_line tag_at).
  - apply (re_sub_line url_re).
    + apply url_re_line.
    + reflexivity.
    + intros t r n H.
      apply url_re_inv in H as (sch & body & rest & -> & _ & _ & _ & _ & ->).
      simpl. rewrite !length_app. simpl. lia.
  - apply tag_at_line.
  - reflexivity.
  - intros t r n. unfold tag_at.
    destruct (starts_with TAG t) eqn:Ht; [|discriminate].
    intros [= <- <-]. apply starts_with_length in Ht. simpl in *. lia.
Qed.

Lemma no_tag_without_backtick (s : text) : BT ∉ s -> contains TAG s = false.
Proof.
  induction s as [|c s IH]; intros Hs; [reflexivity|].
  cbn [contains]. rewrite IH by (intros Hin; apply Hs; right; exact Hin).
  unfold TAG. cbn [starts_with].
  destruct (N.eqb_spec 96 c) as [<- | _]; [|reflexivity].
  exfalso. apply Hs. left.
Qed.

Lemma no_url_without_bracket (s : text) : LT ∉ s -> any_match url_re s = false.
Proof.
  induction s as [|c s IH]; intros Hs; [reflexivity|].
  cbn [any_match]. destruct (url_re (c :: s)) as [[r n]|] eqn:H.
  - apply url_re_inv in H as (sch & body & rest & [= -> _] & _).
    exfalso. apply Hs. left.
  - apply IH. intros Hin. apply Hs. right. exact Hin.
Qed.

(** X4.  A text with no backtick and no [<] is left as it is by
    LintStyleFixer. *)
Theorem lint_transform_plain_text (s : text) :
  BT ∉ s -> LT ∉ s -> transform s = s.
Proof.
  intros Hbt Hlt. unfold transform.
  rewrite (replace_tag_clean s (no_tag_without_backtick s Hbt)).
  apply re_sub_no_match, no_url_without_bracket, Hlt.
Qed.

(** X5.  Whatever [url_re] rewrites is an angle-bracketed URL: [<], the
    scheme [http://] or [https://], a non-empty body without [>] and
    whitespace, and [>]; the replacement is the link with that URL as
    label and target, and the match ends at the closing bracket. *)
Theorem url_rewrite_only_for_bracketed_url (t r : text) (n : nat) :
  url_re t = Some (r, n) ->
  exists sch body rest,
    t = LT :: sch ++ body ++ GT :: rest
    /\ (sch = HTTP \/ sch = HTTPS)
    /\ body <> []
    /\ forallb url_char body = true
    /\ r = txt "[" ++ (sch ++ body) ++ txt "](" ++ (sch ++ body) ++ txt ")"
    /\ n = length (LT :: sch ++ body ++ [GT]).
Proof.
  intros H. apply url_re_inv in H
    as (sch & body & rest & -> & Hsch & Hne & Hbody & -> & ->).
  exists sch, body, rest. repeat (split; [assumption || reflexivity|]).
  simpl. rewrite !length_app. simpl. lia.
Qed.

End LintShape.

Section LoopFacts.

Import Fixers.

Variable is_decimal : N -> bool.

(** X6.  An iteration of either fixer touches no path but the file it
    is at and that file's backup path. *)
Theorem step_touches_only_file_and_backup (st st' : state) (p q : text) :
  spacing_step is_decimal st p = inr st' \/ lint_step st p = inr st' ->
  q <> p -> q <> bak_path p ->
  files st' !! q = files st !! q.
Proof.
  intros Hstep Hp Hbak. destruct Hstep as [Hstep | Hstep].
  - unfold spacing_step in Hstep.
    destruct (read_text st p) as [e | orig]; [discriminate|]. cbv zeta in Hstep.
    case_bool_decide; injection Hstep as <-; [|reflexivity].
    simpl. rewrite lookup_insert_ne by congruence.
    destruct (negb (path_exists st (bak_path p))); [|reflexivity].
    simpl. apply lookup_insert_ne. congruence.
  - unfold lint_step in Hstep.
    destruct (read_text st p) as [e | orig];
      [injection Hstep as <-; reflexivity|]. cbv zeta in Hstep.
    case_bool_decide; injection Hstep as <-; [|reflexivity].
    simpl. rewrite !lookup_insert_ne by congruence.
    destruct (negb (path_exists st (with_suffix_bak p))); [|reflexivity].
    simpl. apply lookup_insert_ne. congruence.
Qed.





Lemma read_text_readable (st : state) (p : text) :
  (exists t, read_text st p = inr t) <-> readable (files st) p = true.
Proof.
  unfold read_text, readable.
  destruct (files st !! p) as [[t|]|]; split;
    try discriminate; try (intros [? [=]]); eauto.
Qed.

Lemma spacing_step_fails (st : state) (p : text) :
  (exists e, spacing_step is_decimal st p = inl e)
  <-> readable (files st) p = false.
Proof.
  unfold spacing_step, read_text, readable.
  destruct (files st !! p) as [[t|]|]; cbv zeta.
  - split; [|discriminate]. case_bool_decide; intros [e [=]].
  - split; [reflexivity | eauto].
  - split; [reflexivity | eauto].
Qed.

Lemma spacing_step_readable (st st' : state) (p q : text) :
  MD `suffix_of` q ->
  spacing_step is_decimal st p = inr st' ->
  readable (files st') q = readable (files st) q.
Proof.
  intros Hmd Hstep.
  unfold spacing_step, read_text in Hstep. unfold readable.
  destruct (files st !! p) as [[t|]|] eqn:Hp; try discriminate.
  cbv zeta in Hstep. case_bool_decide; injection Hstep as <-; [|reflexivity].
  simpl. destruct (decide (q = p)) as [-> | Hne].
  - rewrite lookup_insert_eq, Hp. reflexivity.
  - rewrite lookup_insert_ne by congruence.
    destruct (negb (path_exists st (bak_path p))); [|reflexivity].
    simpl. rewrite lookup_insert_ne; [reflexivity|].
    intros E. apply (md_path_not_bak p q Hmd). symmetry. exact E.
Qed.

Lemma for_each_spacing_fails (md_files : list text) :
  Forall (fun q => MD `suffix_of` q) md_files ->
  forall st,
    (exists e, for_each (spacing_step is_decimal) md_files st = inl e)
    <-> exists p, p ∈ md_files /\ readable (files st) p = false.
Proof.
  induction 1 as [|q qs Hq Hqs IH]; intros st.
  - simpl. split; [intros [e [=]] | intros (p & Hp & _)].
    apply elem_of_nil in Hp. contradiction.
  - cbn [for_each].
    destruct (spacing_step is_decimal st q) as [e | st1] eqn:Hstep.
    + split; [|eauto]. intros _. exists q. split; [left|].
      apply spacing_step_fails. eauto.
    + rewrite IH. split.
      * intros (p & Hp & Hr). exists p. split; [right; exact Hp|].
        rewrite <- (spacing_step_readable st st1 q p); [exact Hr | | exact Hstep].
        rewrite Forall_forall in Hqs. apply Hqs, Hp.
      * intros (p & Hp & Hr). apply elem_of_cons in Hp as [-> | Hp].
        -- assert (Hf : exists e, spacing_step is_decimal st q = inl e)
             by (apply spacing_step_fails; exact Hr).
           destruct Hf as [e He]. congruence.
        -- exists p. split; [exact Hp|].
           rewrite (spacing_step_readable st st1 q p); [exact Hr | | exact Hstep].
           rewrite Forall_forall in Hqs. apply Hqs, Hp.
Qed.

(** X9.  A run of FenceSpacingFixer over Markdown paths ends with the
    read error exactly when one of the listed files cannot be read in
    the tree the run starts from; otherwise it runs to its end. *)
Theorem spacing_run_fails_iff_unreadable
    (fs : gmap text node) (md_files : list text) :
  Forall (fun q => MD `suffix_of` q) md_files ->
  spacing_run is_decimal fs md_files = inl ReadError
  <-> exists p, p ∈ md_files /\ readable fs p = false.
Proof.
  intros Hmd. unfold spacing_run, run.
  rewrite <- (for_each_spacing_fails md_files Hmd
                (say (State fs [] [] []) (Found (length md_files)))).
  destruct (for_each _ _ _) as [[] | st].
  - split; [eauto | reflexivity].
  - split; [discriminate | intros [e [=]]].
Qed.

(** What an iteration does to the report: nothing, or one more path. *)
Lemma for_each_report (step : state -> text -> exn + state) :
  (forall st p st', step st p = inr st' ->
     (patched st' = patched st /\ out st' = out st)
     \/ (patched st' = p :: patched st /\ out st' = PatchedLine p :: out st)) ->
  forall md_files st st',
    for_each step md_files st = inr st' ->
    exists new,
      patched st' = new ++ patched st
      /\ out st' = (PatchedLine <$> new) ++ out st
      /\ rev new `sublist_of` md_files.
Proof.
  intros Hstep md_files. induction md_files as [|p ps IH]; intros st st'.
  - simpl. intros [= <-]. exists []. repeat split. constructor.
  - simpl. destruct (step st p) as [e | st1] eqn:Hp; [discriminate|].
    intros Hrest. destruct (IH _ _ Hrest) as (new & Hpat & Hout & Hsub).
    destruct (Hstep _ _ _ Hp) as [[Hp1 Ho1] | [Hp1 Ho1]].
    + exists new. rewrite Hpat, Hout, Hp1, Ho1.
      split; [reflexivity|]. split; [reflexivity|].
      apply sublist_cons, Hsub.
    + exists (new ++ [p]). rewrite Hpat, Hout, Hp1, Ho1.
      rewrite fmap_app, <- !app_assoc. split; [reflexivity|].
      split; [reflexivity|].
      rewrite rev_app_distr. simpl. apply sublist_skip, Hsub.
Qed.

Lemma spacing_step_report (st : state) (p : text) (st' : state) :
  spacing_step is_decimal st p = inr st' ->
  (patched st' = patched st /\ out st' = out st)
  \/ (patched st' = p :: patched st /\ out st' = PatchedLine p :: out st).
Proof.
  unfold spacing_step. destruct (read_text st p); [discriminate|]. cbv zeta.
  case_bool_decide; intros [= <-]; [right | left];
    try destruct (negb (path_exists st (bak_path p))); split; reflexivity.
Qed.

Lemma lint_step_report (st : state) (p : text) (st' : state) :
  lint_step st p = inr st' ->
  (patched st' = patched st /\ out st' = out st)
  \/ (patched st' = p :: patched st /\ out st' = PatchedLine p :: out st).
Proof.
  unfold lint_step. destruct (read_text st p);
    [intros [= <-]; left; split; reflexivity|]. cbv zeta.
  case_bool_decide; intros [= <-]; [right | left];
    try destruct (negb (path_exists st (with_suffix_bak p)));
    split; reflexivity.
Qed.

(** X10.  A run that reaches its end has printed the number of files
    found, then one line per patched file, then their count; the
    patched files are files of the traversal, in its order, so the count
    is at most the number found.  ([out] and [patched] hold the most
    recent entry first.) *)
Theorem run_report_shape (fs : gmap text node) (md_files : list text)
    (st : state) :
  spacing_run is_decimal fs md_files = inr st \/ lint_run fs md_files = inr st ->
  out st = Done (length (patched st))
           :: (PatchedLine <$> patched st) ++ [Found (length md_files)]
  /\ rev (patched st) `sublist_of` md_files
  /\ (length (patched st) <= length md_files)%nat.
Proof.
  assert (Hgen : forall step,
    (forall st p st', step st p = inr st' ->
       (patched st' = patched st /\ out st' = out st)
       \/ (patched st' = p :: patched st /\ out st' = PatchedLine p :: out st)) ->
    run step fs md_files = inr st ->
    out st = Done (length (patched st))
             :: (PatchedLine <$> patched st) ++ [Found (length md_files)]
    /\ rev (patched st) `sublist_of` md_files
    /\ (length (patched st) <= length md_files)%nat).
  { intros step Hstep. unfold run.
    destruct (for_each _ _ _) as [e | st1] eqn:Hloop; [discriminate|].
    intros [= <-].
    destruct (for_each_report step Hstep _ _ _ Hloop) as (new & Hpat & Hout & Hsub).
    simpl in Hpat, Hout. rewrite app_nil_r in Hpat. subst new.
    simpl. rewrite Hout. split; [reflexivity|]. split; [exact Hsub|].
    apply sublist_length in Hsub. rewrite length_rev in Hsub. exact Hsub. }
  intros [Hrun | Hrun].
  - apply (Hgen (spacing_step is_decimal)); [apply spacing_step_report | exact Hrun].
  - apply (Hgen lint_step); [apply lint_step_report | exact Hrun].
Qed.

End LoopFacts.

Section ScannerFacts.

Import Javadoc.

Variable is_word : N -> bool.

Lemma ws_star_leading (k : text -> bool) (ws rest : text) :
  forallb is_space ws = true -> ws_star k rest = true ->
  ws_star k (ws ++ rest) = true.
Proof.
  induction ws as [|c ws IH]; intros Hws Hk; [exact Hk|].
  simpl in Hws. apply andb_prop in Hws as [Hc Hws].
  simpl. rewrite Hc, (IH Hws Hk). apply orb_true_r.
Qed.

(** X11.  A file in which nothing but whitespace stands before the
    public type declaration is listed: the window above the match holds
    one empty line and no documentation marker. *)
Theorem declaration_at_top_is_listed (ws rest : text) :
  forallb is_space ws = true ->
  decl_at is_word rest = true ->
  check is_word (ws ++ rest) = Some true.
Proof.
  intros Hws Hdecl.
  assert (Hs : search is_word (ws ++ rest) = Some 0%nat).
  { unfold search.
    assert (Hhere : decl_at is_word (ws ++ rest) = true)
      by (apply ws_star_leading; assumption).
    remember (ws ++ rest) as t eqn:Et. clear Et.
    destruct t; cbn [search_from andb]; rewrite Hhere; reflexivity. }
  unfold check. rewrite Hs. reflexivity.
Qed.

Lemma split_nl_not_nil (s : text) : split_nl s <> [].
Proof.
  destruct s as [|c s]; simpl; [discriminate|].
  destruct (c =? NL); [discriminate|]. destruct (split_nl s); discriminate.
Qed.

Lemma split_nl_pieces (s : text) : Forall (fun l => NL ∉ l) (split_nl s).
Proof.
  induction s as [|c s IH]; simpl.
  - constructor; [apply not_elem_of_nil | constructor].
  - destruct (N.eqb_spec c NL) as [-> | Hc].
    + constructor; [apply not_elem_of_nil | exact IH].
    + destruct (split_nl s) as [|l ls].
      * constructor; [|constructor]. intros Hin.
        apply elem_of_cons in Hin as [E | Hin]; [congruence|].
        apply elem_of_nil in Hin. exact Hin.
      * apply Forall_cons in IH as [Hl Hls]. constructor; [|exact Hls].
        intros Hin. apply elem_of_cons in Hin as [E | Hin];
          [congruence | contradiction].
Qed.

(** X12.  The scan looks at no fewer than one and no more than ten
    lines, none of which holds a line break, wherever the match
    begins. *)
Theorem window_has_one_to_ten_lines (s : text) (start : nat) :
  (1 <= length (prev_lines s start) <= 10)%nat
  /\ Forall (fun l => NL ∉ l) (prev_lines s start).
Proof.
  unfold prev_lines, last_n.
  set (ls := split_nl (rstrip_nl (take start s))).
  assert (Hpos : (1 <= length ls)%nat).
  { pose proof (split_nl_not_nil (rstrip_nl (take start s))) as Hne.
    fold ls in Hne. destruct ls; [contradiction | simpl; lia]. }
  split.
  - rewrite length_drop. lia.
  - apply Forall_drop, split_nl_pieces.
Qed.

(** X13.  The scanner lists exactly the paths whose text has a match
    and no documentation reached above it, in the order of the
    traversal; a file without a public type declaration is never
    listed. *)
Theorem missing_lists_undocumented_files (sources : list (text * text)) :
  (forall p, p ∈ missing is_word sources
             <-> exists s, (p, s) ∈ sources /\ check is_word s = Some true)
  /\ missing is_word sources `sublist_of` (fst <$> sources)
  /\ (forall p s, check is_word s = None -> missing is_word [(p, s)] = []).
Proof.
  split; [|split].
  - induction sources as [|[q s] rest IH]; intros p; simpl.
    + split; [intros H; apply elem_of_nil in H; contradiction|].
      intros (s & H & _). apply elem_of_nil in H. contradiction.
    + case_bool_decide as Hq.
      * rewrite elem_of_cons, IH. split.
        -- intros [-> | (s' & Hin & Hc)].
           ++ exists s. split; [left | exact Hq].
           ++ exists s'. split; [right; exact Hin | exact Hc].
        -- intros (s' & Hin & Hc). apply elem_of_cons in Hin as [[= -> ->] | Hin].
           ++ left. reflexivity.
           ++ right. exists s'. split; assumption.
      * rewrite IH. split.
        -- intros (s' & Hin & Hc). exists s'. split; [right; exact Hin | exact Hc].
        -- intros (s' & Hin & Hc). apply elem_of_cons in Hin as [[= -> ->] | Hin].
           ++ contradiction.
           ++ exists s'. split; assumption.
  - induction sources as [|[q s] rest IH]; simpl; [constructor|].
    case_bool_decide; [apply sublist_skip | apply sublist_cons]; exact IH.
  - intros p s Hnone. simpl. rewrite Hnone.
    rewrite bool_decide_eq_false_2 by discriminate. reflexivity.
Qed.

Lemma contains_tail (p : text) (c : N) (s : text) :
  contains p s = true -> contains p (c :: s) = true.
Proof. intros H. cbn [contains]. rewrite H. apply orb_true_r. Qed.

Lemma contains_drop (p : text) (k : nat) (s : text) :
  contains p (drop k s) = true -> contains p s = true.
Proof.
  revert k. induction s as [|c s IH]; intros [|k]; simpl; try (intros H; exact H).
  intros H. apply (contains_tail p c s), (IH k), H.
Qed.

Lemma ws_star_public (k : text -> bool) (t : text) :
  ws_star (lit PUBLIC k) t = true -> contains PUBLIC t = true.
Proof.
  induction t as [|c t IH]; cbn [ws_star contains].
  - unfold lit. intros H. apply orb_prop in H as [H | H]; [|discriminate].
    apply andb_prop in H as [H _]. rewrite H. reflexivity.
  - intros H. apply orb_prop in H as [H | H].
    + unfold lit in H. apply andb_prop in H as [H _]. rewrite H. reflexivity.
    + apply andb_prop in H as [_ H]. rewrite (IH H). apply orb_true_r.
Qed.

(** X14.  A source text in which the word [public] does not occur has
    no match, so its file is not listed. *)
Theorem no_public_no_listing (p s : text) :
  contains PUBLIC s = false ->
  check is_word s = None /\ missing is_word [(p, s)] = [].
Proof.
  intros Hno.
  assert (Hs : search is_word s = None).
  { destruct (search is_word s) as [i|] eqn:Hi; [|reflexivity].
    destruct (search_from_spec is_word s true i Hi) as (Hd & _).
    apply ws_star_public, contains_drop in Hd. congruence. }
  assert (Hc : check is_word s = None) by (unfold check; rewrite Hs; reflexivity).
  split; [exact Hc|]. simpl. rewrite Hc.
  rewrite bool_decide_eq_false_2 by discriminate. reflexivity.
Qed.

End ScannerFacts.

Section EventFacts.

Import LogViewer.

Variable json_loads : text -> option pyval.
Variable py_repr : pyval -> text.




(** Every line the loop has printed is an event line and [count] is
    their number. *)
Lemma loop_counts (a : args) (events : list pyval) :
  forall ls shown' r,
    loop py_repr a events (EventLine <$> ls) (length ls) = (shown', r) ->
    exists ls', shown' = EventLine <$> ls'
                /\ forall count, r = inr count -> count = length ls'.
Proof.
  induction events as [|event rest IH]; intros ls shown' r; simpl.
  - intros [= <- <-]. exists ls. split; [reflexivity|]. intros c [= <-]. reflexivity.
  - destruct (passes a event) as [e | [|]].
    + intros [= <- <-]. exists ls. split; [reflexivity | discriminate].
    + destruct (render py_repr event) as [e | l].
      * intros [= <- <-]. exists ls. split; [reflexivity | discriminate].
      * apply (IH (l :: ls)).
    + apply IH.
Qed.

(** X16.  When [main] returns 0, what it printed is the event lines
    followed by the summary, and the summary gives their number. *)
Theorem summary_counts_printed_events (a : args) (f : log_file) :
  ret (main json_loads py_repr a f) = inr 0%Z ->
  exists ls,
    printed (main json_loads py_repr a f)
    = (EventLine <$> ls) ++ [Summary (length ls)].
Proof.
  destruct f as [| |content]; simpl; try discriminate.
  destruct (loop py_repr a (iter_events json_loads content) [] 0)
    as [shown r] eqn:Hloop.
  destruct (loop_counts a _ [] shown r Hloop) as (ls & -> & Hcount).
  destruct r as [e | count]; simpl; [discriminate|]. intros _.
  rewrite (Hcount count eq_refl). exists (rev ls).
  cbn [rev]. rewrite length_rev. f_equal.
  clear. induction ls as [|l ls IH]; [reflexivity|].
  change (rev (EventLine <$> ls) ++ [EventLine l]
          = EventLine <$> (rev ls ++ [l])).
  rewrite fmap_app, IH. reflexivity.
Qed.







(** X19.  For an object whose level is a string, the printed line is
    the time, the level, the logger and the message, each of time,
    logger and message standing as [str] shows it and as [None] when the
    field is absent; the level is right-aligned in five columns and
    printed in full when it is longer. *)
Theorem line_of_event_with_string_level (items : list (text * pyval)) (lv : text) :
  lookup_item KEY_LEVEL items = Some (PStr lv) ->
  render py_repr (PDict items)
  = inr (py_str py_repr (default PNone (lookup_item KEY_TIME items))
         ++ [SP] ++ rjust5 lv ++ [SP]
         ++ py_str py_repr (default PNone (lookup_item KEY_LOGGER items))
         ++ txt " - "
         ++ py_str py_repr (default PNone (lookup_item KEY_MESSAGE items)))
  /\ length (rjust5 lv) = Nat.max 5 (length lv)
  /\ lv `suffix_of` rjust5 lv
  /\ Forall (fun c => c = SP) (take (5 - length lv) (rjust5 lv)).
Proof.
  intros Hlv. split; [|split; [|split]].
  - unfold render. simpl. rewrite Hlv. reflexivity.
  - unfold rjust5. rewrite length_app, length_replicate. lia.
  - unfold rjust5. eexists. reflexivity.
  - unfold rjust5.
    rewrite take_app_length'; [|symmetry; apply length_replicate].
    apply Forall_replicate. reflexivity.
Qed.

End EventFacts.

Lemma spacing_transform_single_line_witness :
  FenceSpacing.transform ascii_decimal plain_md = plain_md.
Proof.
  apply (spacing_transform_single_line ascii_decimal plain_md).
  unfold plain_md. intros H.
  repeat (apply elem_of_cons in H as [H | H]; [discriminate|]).
  apply elem_of_nil in H. exact H.
Defined.

Lemma lint_transform_plain_text_witness :
  LintStyle.transform plain_md = plain_md.
Proof.
  apply (lint_transform_plain_text plain_md); unfold plain_md; absent.
Defined.

Lemma url_rewrite_only_for_bracketed_url_witness :
  exists sch body rest,
    bracketed_url = LT :: sch ++ body ++ GT :: rest
    /\ (sch = LintStyle.HTTP \/ sch = LintStyle.HTTPS)
    /\ body <> [].
Proof.
  destruct (url_rewrite_only_for_bracketed_url bracketed_url linked_url 15 eq_refl)
    as (sch & body & rest & H1 & H2 & H3 & _).
  exists sch, body, rest. split; [exact H1|]. split; [exact H2 | exact H3].
Defined.

Lemma step_touches_only_file_and_backup_witness :
  exists st',
    Fixers.spacing_step ascii_decimal state_without_backup a_md = inr st'
    /\ Fixers.files st' !! b_md = Fixers.files state_without_backup !! b_md.
Proof.
  eexists. split; [reflexivity|].
  apply (step_touches_only_file_and_backup ascii_decimal _ _ a_md b_md);
    [left; reflexivity | discriminate | discriminate].
Defined.


Lemma spacing_run_fails_iff_unreadable_witness :
  Fixers.spacing_run ascii_decimal tree_with_unreadable [a_md; b_md]
  = inl Fixers.ReadError
  <-> exists p, p ∈ [a_md; b_md]
                /\ Fixers.readable tree_with_unreadable p = false.
Proof.
  apply (spacing_run_fails_iff_unreadable ascii_decimal).
  repeat constructor; [exists (txt "a") | exists (txt "b")]; reflexivity.
Defined.

Lemma run_report_shape_witness :
  exists st,
    Fixers.spacing_run ascii_decimal tree_with_list [a_md] = inr st
    /\ Fixers.out st
       = Fixers.Done (length (Fixers.patched st))
         :: (Fixers.PatchedLine <$> Fixers.patched st) ++ [Fixers.Found 1]
    /\ (length (Fixers.patched st) <= 1)%nat.
Proof.
  eexists. split; [reflexivity|].
  destruct (run_report_shape ascii_decimal tree_with_list [a_md] _
              (or_introl eq_refl)) as (Hout & _ & Hlen).
  split; [exact Hout | exact Hlen].
Defined.

Lemma declaration_at_top_is_listed_witness :
  Javadoc.check ascii_word (txt "  " ++ txt "public class A") = Some true.
Proof.
  apply (declaration_at_top_is_listed ascii_word); reflexivity.
Defined.

Lemma missing_lists_undocumented_files_witness :
  Javadoc.missing ascii_word [(a_md, txt "class A")] = [].
Proof.
  destruct (missing_lists_undocumented_files ascii_word [(a_md, txt "class A")])
    as (_ & _ & Hnone).
  apply Hnone. reflexivity.
Defined.

Lemma no_public_no_listing_witness :
  Javadoc.check ascii_word (txt "class A {}") = None
  /\ Javadoc.missing ascii_word [(a_md, txt "class A {}")] = [].
Proof.
  apply (no_public_no_listing ascii_word). reflexivity.
Defined.


Lemma summary_counts_printed_events_witness :
  exists ls,
    LogViewer.printed
      (LogViewer.main loads_sample no_repr (LogViewer.Args None None)
         (LogViewer.Lines info_then_noise))
    = (LogViewer.EventLine <$> ls) ++ [LogViewer.Summary (length ls)].
Proof.
  apply (summary_counts_printed_events loads_sample no_repr). reflexivity.
Defined.



Lemma line_of_event_with_string_level_witness :
  LogViewer.render no_repr info_event
  = inr (txt "None  INFO None - None").
Proof.
  destruct (line_of_event_with_string_level no_repr
              [(LogViewer.KEY_LEVEL, LogViewer.PStr (txt "INFO"))] (txt "INFO")
              eq_refl) as [H _].
  exact H.
Defined.
